(** * ScreenSentry: a shallow embedding of [screen_sentry.py]

    The development follows the source file top-down: text helpers and the
    word-variation generator, the regular expressions of the privacy mode
    (Python's [re] on the fragment of the syntax the program uses), the two
    OCR filters, the renderer, the box tracker and the capture loop.

    Conventions.
    - Python [str] values are [string]s; only the 7-bit ASCII range carries
      case, digit, space and word classes, every other character is caseless
      and belongs to no class.
    - Python [int]s are [Z]; clock readings ([time.time()]) and box centres
      are exact rationals [Q].
    - A frame (numpy array of shape rows x columns x channels) is a list of
      rows of pixels, a pixel being the list of its channel values.
    - An exception is [None]; where the source catches it, the handler's
      value is substituted. *)

From Stdlib Require Import ZArith QArith Ascii String.
From stdpp Require Import base tactics option list strings.

Open Scope Z_scope.

(** ** Python string methods used by the program *)

Definition is_ascii_upper (c : ascii) : bool :=
  let n := N_of_ascii c in ((65 <=? n) && (n <=? 90))%N.

Definition is_ascii_lower (c : ascii) : bool :=
  let n := N_of_ascii c in ((97 <=? n) && (n <=? 122))%N.

Definition char_lower (c : ascii) : ascii :=
  if is_ascii_upper c then ascii_of_N (N_of_ascii c + 32) else c.

Definition char_upper (c : ascii) : ascii :=
  if is_ascii_lower c then ascii_of_N (N_of_ascii c - 32) else c.

Fixpoint str_map (f : ascii -> ascii) (s : string) : string :=
  match s with
  | EmptyString => EmptyString
  | String c rest => String (f c) (str_map f rest)
  end.

(** [str.lower()] and [str.upper()]. *)
Definition lower (s : string) : string := str_map char_lower s.
Definition upper (s : string) : string := str_map char_upper s.

(** [str.capitalize()]: first character upper-cased, the rest lower-cased. *)
Definition capitalize (s : string) : string :=
  match s with
  | EmptyString => EmptyString
  | String c rest => String (char_upper c) (lower rest)
  end.

(** ** [generate_word_variations] *)

Definition default_redacted_words : list string :=
  ["apple"; "banana"; "password"].

Definition punctuation_marks : list string :=
  ["."; ","; "!"; "?"; "--"; "-"; "'"].

(** The body of the [for word in words_to_redact] loop: what one word
    appends to [word_variations], in order. *)
Definition word_variants (word : string) : list string :=
  [lower word; upper word; capitalize word]
  ++ flat_map (fun mark =>
       [lower word +:+ mark; upper word +:+ mark; capitalize word +:+ mark])
     punctuation_marks
  ++ [lower word +:+ "s"; upper word +:+ "S"; capitalize word +:+ "s"]
  ++ flat_map (fun mark =>
       [(lower word +:+ "s") +:+ mark;
        (upper word +:+ "S") +:+ mark;
        (capitalize word +:+ "s") +:+ mark])
     punctuation_marks.

(** [words_to_redact.extend([...])] mutates the caller's list, so the
    function is modelled as returning the mutated argument next to its
    result.  On a list of [str] no statement of the body can raise. *)
Definition generate_word_variations (words_to_redact : list string)
  : list string * list string :=
  let words_to_redact := words_to_redact ++ ["apple"; "banana"; "password"] in
  (words_to_redact, flat_map word_variants words_to_redact).

(** ** Regular expressions: the fragment of Python's [re] the program uses

    [pattern.match(text)] is only tested for truth, so what matters is
    whether some prefix of [text] is matched; greedy and lazy repetition
    agree on that and the matcher below computes the set of positions at
    which a match of the pattern started at [i] can end. *)

Definition is_digit_char (c : ascii) : bool :=
  let n := N_of_ascii c in ((48 <=? n) && (n <=? 57))%N.

(** [str.isspace] on the ASCII range: TAB..CR, FS..US and the blank. *)
Definition is_space_char (c : ascii) : bool :=
  let n := N_of_ascii c in
  (((9 <=? n) && (n <=? 13)) || ((28 <=? n) && (n <=? 32)))%N.

Definition is_alpha_char (c : ascii) : bool :=
  is_ascii_upper c || is_ascii_lower c.

(** [\w]: alphanumerics and the underscore. *)
Definition is_word_char (c : ascii) : bool :=
  is_alpha_char c || is_digit_char c || bool_decide (c = "_"%char).

Definition newline : ascii := ascii_of_N 10.

(** One member of a character set [[...]]. *)
Inductive set_item : Type :=
| SChar (c : ascii)
| SRange (lo hi : ascii)
| SDigit (negated : bool)
| SSpace (negated : bool)
| SWord (negated : bool).

Inductive regex : Type :=
| RChar (c : ascii)
| RAny
| RSet (negated : bool) (items : list set_item)
| RBoundary (negated : bool)
| RBegin
| REnd (strict : bool)
| REmpty
| RSeq (r1 r2 : regex)
| RAlt (r1 r2 : regex)
| RRepeat (r : regex) (lo : nat) (hi : option nat)
| RGroup (r : regex)
| RLook (negated : bool) (r : regex).

Definition set_item_matches (c : ascii) (it : set_item) : bool :=
  match it with
  | SChar d => bool_decide (c = d)
  | SRange lo hi => ((N_of_ascii lo <=? N_of_ascii c) && (N_of_ascii c <=? N_of_ascii hi))%N
  | SDigit neg => xorb neg (is_digit_char c)
  | SSpace neg => xorb neg (is_space_char c)
  | SWord neg => xorb neg (is_word_char c)
  end.

(** All positions reached from [ps] by one more match of the repeated item. *)
Definition rep_step (m : nat -> list nat) (ps : list nat) : list nat :=
  remove_dups (flat_map m ps).

Fixpoint rep_exact (m : nat -> list nat) (n : nat) (ps : list nat) : list nat :=
  match n with
  | O => ps
  | S n => rep_exact m n (rep_step m ps)
  end.

Fixpoint rep_upto (m : nat -> list nat) (n : nat) (ps : list nat) : list nat :=
  match n with
  | O => ps
  | S n => ps ++ rep_upto m n (rep_step m ps)
  end.

Section Matcher.
(** The subject string, fixed during one call of [match]. *)
Variable subject : list ascii.

Definition word_at (i : nat) : bool :=
  match subject !! i with
  | Some c => is_word_char c
  | None => false
  end.

(** [\b]: exactly one of the characters before and after [i] is a word
    character (outside the string counts as a non-word character). *)
Definition at_boundary (i : nat) : bool :=
  xorb (match i with O => false | S j => word_at j end) (word_at i).

Definition at_end (strict : bool) (i : nat) : bool :=
  bool_decide (i = length subject)
  || (negb strict
      && bool_decide (S i = length subject)
      && bool_decide (subject !! i = Some newline)).

Definition one_char (p : ascii -> bool) (i : nat) : list nat :=
  match subject !! i with
  | Some c => if p c then [S i] else []
  | None => []
  end.

(** End positions of the matches of [r] that start at position [i].  An
    unbounded repetition needs at most [length subject] further rounds,
    because a round that consumes nothing reaches no new position. *)
Fixpoint ends (r : regex) (i : nat) : list nat :=
  match r with
  | RChar c => one_char (fun d => bool_decide (d = c)) i
  | RAny => one_char (fun d => negb (bool_decide (d = newline))) i
  | RSet neg items =>
      one_char (fun d => xorb neg (existsb (set_item_matches d) items)) i
  | RBoundary neg => if xorb neg (at_boundary i) then [i] else []
  | RBegin => if bool_decide (i = O) then [i] else []
  | REnd strict => if at_end strict i then [i] else []
  | REmpty => [i]
  | RSeq r1 r2 => remove_dups (flat_map (ends r2) (ends r1 i))
  | RAlt r1 r2 => remove_dups (ends r1 i ++ ends r2 i)
  | RRepeat r lo hi =>
      let base := rep_exact (ends r) lo [i] in
      remove_dups
        (match hi with
         | Some hi => rep_upto (ends r) (hi - lo) base
         | None => rep_upto (ends r) (length subject) base
         end)
  | RGroup r => ends r i
  | RLook neg r =>
      if xorb neg (negb (bool_decide (ends r i = []))) then [i] else []
  end.
End Matcher.

(** [pattern.match(text)] as a truth value: the pattern matches at the first
    character of [text] (not necessarily all of it). *)
Definition re_match (pattern : regex) (text : string) : bool :=
  negb (bool_decide (ends (list_ascii_of_string text) pattern O = [])).

(** ** [re.compile] on pattern strings

    The parser follows the item loop of CPython's pattern parser.  [None]
    is [re.error]; it is also the answer for syntax outside the modelled
    fragment (back-references, named groups, look-behind, inline flags,
    possessive quantifiers, numeric and hexadecimal escapes), so a [None]
    alone does not tell that Python refuses the pattern: statements
    either assume that the entries compile or name a form that Python
    refuses. *)

Definition is_repeat (r : regex) : bool :=
  match r with RRepeat _ _ _ => true | _ => false end.

Definition is_at (r : regex) : bool :=
  match r with RBoundary _ | RBegin | REnd _ => true | _ => false end.

Fixpoint read_digits (cs : list ascii) : list ascii * list ascii :=
  match cs with
  | c :: rest =>
      if is_digit_char c
      then let '(ds, rest') := read_digits rest in (c :: ds, rest')
      else ([], cs)
  | [] => ([], [])
  end.

Definition digits_value (ds : list ascii) : N :=
  fold_left (fun n c => (10 * n + (N_of_ascii c - 48))%N) ds 0%N.

(** [MAXREPEAT]: a repetition count from this value on raises
    [OverflowError]. *)
Definition max_repeat : N := 4294967295.

Definition count_too_large (lo : N) (hi : option N) : bool :=
  (max_repeat <=? lo)%N
  || match hi with Some h => (max_repeat <=? h)%N | None => false end.

(** The text after an opening brace: [Some (lo, hi, rest)] when it reads as
    a repetition count [m}], [m,}], [,n}] or [m,n}]; otherwise the brace is
    an ordinary character. *)
Definition read_braces (cs : list ascii)
  : option (N * option N * list ascii) :=
  match cs with
  | "}"%char :: _ => None
  | _ =>
      let '(lo, rest) := read_digits cs in
      let '(hi, rest) :=
        match rest with
        | ","%char :: rest' => read_digits rest'
        | _ => (lo, rest)
        end in
      match rest with
      | "}"%char :: rest' =>
          Some (match lo with [] => 0%N | _ => digits_value lo end,
                match hi with [] => None | _ => Some (digits_value hi) end,
                rest')
      | _ => None
      end
  end.

(** A backslash escape outside a character set. *)
Definition escape (c : ascii) : option regex :=
  match c with
  | "d"%char => Some (RSet false [SDigit false])
  | "D"%char => Some (RSet false [SDigit true])
  | "s"%char => Some (RSet false [SSpace false])
  | "S"%char => Some (RSet false [SSpace true])
  | "w"%char => Some (RSet false [SWord false])
  | "W"%char => Some (RSet false [SWord true])
  | "b"%char => Some (RBoundary false)
  | "B"%char => Some (RBoundary true)
  | "A"%char => Some RBegin
  | "Z"%char => Some (REnd true)
  | "a"%char => Some (RChar (ascii_of_N 7))
  | "f"%char => Some (RChar (ascii_of_N 12))
  | "n"%char => Some (RChar (ascii_of_N 10))
  | "r"%char => Some (RChar (ascii_of_N 13))
  | "t"%char => Some (RChar (ascii_of_N 9))
  | "v"%char => Some (RChar (ascii_of_N 11))
  | _ => if is_alpha_char c || is_digit_char c then None else Some (RChar c)
  end.

(** A backslash escape inside a character set ([\b] is the backspace). *)
Definition class_escape (c : ascii) : option set_item :=
  match c with
  | "d"%char => Some (SDigit false)
  | "D"%char => Some (SDigit true)
  | "s"%char => Some (SSpace false)
  | "S"%char => Some (SSpace true)
  | "w"%char => Some (SWord false)
  | "W"%char => Some (SWord true)
  | "a"%char => Some (SChar (ascii_of_N 7))
  | "b"%char => Some (SChar (ascii_of_N 8))
  | "f"%char => Some (SChar (ascii_of_N 12))
  | "n"%char => Some (SChar (ascii_of_N 10))
  | "r"%char => Some (SChar (ascii_of_N 13))
  | "t"%char => Some (SChar (ascii_of_N 9))
  | "v"%char => Some (SChar (ascii_of_N 11))
  | _ => if is_alpha_char c || is_digit_char c then None else Some (SChar c)
  end.

Definition class_atom (cs : list ascii) : option (set_item * list ascii) :=
  match cs with
  | "\"%char :: e :: rest =>
      match class_escape e with
      | Some item => Some (item, rest)
      | None => None
      end
  | "\"%char :: [] => None
  | c :: rest => Some (SChar c, rest)
  | [] => None
  end.

(** The members of a character set, up to and including its closing
    bracket.  A bracket that comes first is a member, not the end. *)
Fixpoint parse_class (fuel : nat) (acc : list set_item) (cs : list ascii)
  : option (list set_item * list ascii) :=
  match fuel with
  | O => None
  | S fuel =>
      match acc, cs with
      | _ :: _, "]"%char :: rest => Some (acc, rest)
      | _, _ =>
          match class_atom cs with
          | None => None
          | Some (code1, rest) =>
              match rest with
              | "-"%char :: [] => None
              | "-"%char :: "]"%char :: rest' =>
                  Some (acc ++ [code1; SChar "-"%char], rest')
              | "-"%char :: rest' =>
                  match class_atom rest' with
                  | Some (code2, rest'') =>
                      match code1, code2 with
                      | SChar lo, SChar hi =>
                          if (N_of_ascii hi <? N_of_ascii lo)%N then None
                          else parse_class fuel (acc ++ [SRange lo hi]) rest''
                      | _, _ => None
                      end
                  | None => None
                  end
              | _ => parse_class fuel (acc ++ [code1]) rest
              end
          end
      end
  end.

(** [acc] holds the items of the current branch, last one first. *)
Definition mk_seq (acc : list regex) : regex :=
  fold_left (fun tail item => RSeq item tail) acc REmpty.

Definition finish (alts acc : list regex) : regex :=
  fold_right RAlt (mk_seq acc) alts.

(** A quantifier applies to the last item; it needs one ("nothing to
    repeat") that is not itself a repetition ("multiple repeat"). *)
Definition quantify (acc : list regex) (lo : nat) (hi : option nat)
  : option (list regex) :=
  match acc with
  | [] => None
  | item :: acc' =>
      if is_at item || is_repeat item then None
      else if match hi with Some h => (h <? lo)%nat | None => false end
           then None
           else Some (RRepeat item lo hi :: acc')
  end.

Fixpoint parse (fuel : nat) (alts acc : list regex) (cs : list ascii)
  : option (regex * list ascii) :=
  match fuel with
  | O => None
  | S fuel =>
      let literal c rest := parse fuel alts (RChar c :: acc) rest in
      let repeat lo hi rest :=
        match quantify acc lo hi with
        | None => None
        | Some acc' =>
            match rest with
            | "?"%char :: rest' => parse fuel alts acc' rest'
            | "+"%char :: _ => None
            | _ => parse fuel alts acc' rest
            end
        end in
      let group (wrap : regex -> regex) body :=
        match parse fuel [] [] body with
        | Some (r, ")"%char :: rest') => parse fuel alts (wrap r :: acc) rest'
        | _ => None
        end in
      match cs with
      | [] => Some (finish alts acc, [])
      | ")"%char :: _ => Some (finish alts acc, cs)
      | "|"%char :: rest => parse fuel (alts ++ [mk_seq acc]) [] rest
      | "\"%char :: e :: rest =>
          match escape e with
          | Some item => parse fuel alts (item :: acc) rest
          | None => None
          end
      | "\"%char :: [] => None
      | "["%char :: "^"%char :: rest =>
          match parse_class (S (length rest)) [] rest with
          | Some (items, rest') => parse fuel alts (RSet true items :: acc) rest'
          | None => None
          end
      | "["%char :: rest =>
          match parse_class (S (length rest)) [] rest with
          | Some (items, rest') => parse fuel alts (RSet false items :: acc) rest'
          | None => None
          end
      | "."%char :: rest => parse fuel alts (RAny :: acc) rest
      | "^"%char :: rest => parse fuel alts (RBegin :: acc) rest
      | "$"%char :: rest => parse fuel alts (REnd false :: acc) rest
      | "?"%char :: rest => repeat O (Some 1%nat) rest
      | "*"%char :: rest => repeat O None rest
      | "+"%char :: rest => repeat 1%nat None rest
      | "{"%char :: rest =>
          match read_braces rest with
          | Some (lo, hi, rest') =>
              if count_too_large lo hi then None
              else repeat (N.to_nat lo) (N.to_nat <$> hi) rest'
          | None => literal "{"%char rest
          end
      | "("%char :: "?"%char :: ":"%char :: body => group RGroup body
      | "("%char :: "?"%char :: "="%char :: body => group (RLook false) body
      | "("%char :: "?"%char :: "!"%char :: body => group (RLook true) body
      | "("%char :: "?"%char :: _ => None
      | "("%char :: body => group RGroup body
      | c :: rest => literal c rest
      end
  end.

(** [re.compile(pattern)]: the whole string must be consumed (a closing
    parenthesis without its opening one is an error).  Every recursive call
    of the parser is on a strictly shorter text, so one unit of fuel per
    character, and one more, is enough. *)
Definition re_compile (pattern : string) : option regex :=
  let cs := list_ascii_of_string pattern in
  match parse (S (length cs)) [] [] cs with
  | Some (r, []) => Some r
  | _ => None
  end.

(** ** [generate_patterns] *)

Definition phone_number_patterns : list string :=
  ["\b\d{3}[-.\s]?\d{3}[-.\s]?\d{4}\b";
   "\(\d{3}\)\s*\d{3}[-.\s]?\d{4}\b"].

Definition ssn_patterns : list string :=
  ["\b\d{3}[-.\s]?\d{2}[-.\s]?\d{4}\b"].

Definition ip_address_patterns : list string :=
  ["\b(?:\d{1,3}\.){3}\d{1,3}\b";
   "\b(?:\d{1,3}\.){3}\d{1,3}(?![\d.])\b";
   "\b(?:[0-9a-fA-F]{1,4}:){7}[0-9a-fA-F]{1,4}\b"].

Definition generate_patterns : list string * list string * list string :=
  (phone_number_patterns, ssn_patterns, ip_address_patterns).

(** ** Frames, boxes and OCR output *)

(** A bounding box [(x, y, w, h)]. *)
Definition box : Type := Z * Z * Z * Z.

(** A pixel is the list of its channel values (one for a grey image, four
    for the BGRA frames the screen grabber delivers). *)
Definition pixel : Type := list Z.
Definition image : Type := list (list pixel).

(** The dictionary of parallel lists returned by
    [pytesseract.image_to_data(..., output_type=Output.DICT)], restricted
    to the keys the program reads. *)
Record ocr_data : Type := OcrData {
  data_text : list string;
  data_conf : list Z;
  data_left : list Z;
  data_top : list Z;
  data_width : list Z;
  data_height : list Z
}.

(** The library calls around the program's own logic.  [None] means that
    the call raises (or, for the OCR engine, that the dictionary it returns
    lacks a key the program reads, which raises at the first access). *)
Class Collaborators : Type := {
  (** [cv2.cvtColor(frame, cv2.COLOR_BGR2GRAY)] *)
  cvtColor : image -> image;
  (** [cv2.threshold(image, 0, 255, THRESH_BINARY | THRESH_OTSU)] *)
  threshold : image -> option image;
  (** [pytesseract.image_to_data] *)
  image_to_data : image -> option ocr_data
}.

(** ** The token filters: [perform_ocr] and [perform_ocr_privacy_mode] *)

(** The [for i, text in enumerate(data['text'])] loop of both functions,
    with the test on [text] as a parameter.  [and] is short-circuit: the
    confidence is read only for a text that passes the test, and the four
    coordinates only when the confidence is positive.  A missing index
    raises [IndexError]. *)
Fixpoint scan_tokens (test : string -> bool) (data : ocr_data) (i : nat)
    (texts : list string) (word_boxes : list box) : option (list box) :=
  match texts with
  | [] => Some word_boxes
  | text :: rest =>
      if test text then
        match data_conf data !! i with
        | None => None
        | Some conf =>
            if 0 <? conf then
              match data_left data !! i, data_top data !! i,
                    data_width data !! i, data_height data !! i with
              | Some x, Some y, Some w, Some h =>
                  scan_tokens test data (S i) rest (word_boxes ++ [(x, y, w, h)])
              | _, _, _, _ => None
              end
            else scan_tokens test data (S i) rest word_boxes
        end
      else scan_tokens test data (S i) rest word_boxes
  end.

(** An argument of [perform_ocr_privacy_mode]'s [patterns] list: a string
    still to be compiled, or an already compiled pattern. *)
Inductive pattern_arg : Type :=
| PStr (s : string)
| PCompiled (r : regex).

Definition compile_arg (p : pattern_arg) : option regex :=
  match p with
  | PStr s => re_compile s
  | PCompiled r => Some r
  end.

Section Filters.
Context `{Collaborators}.

(** The handler of the enclosing [try] returns the empty list. *)
Definition perform_ocr (img : image) (words_to_detect : list string)
  : list box :=
  match threshold img with
  | None => []
  | Some thresholded =>
      match image_to_data thresholded with
      | None => []
      | Some data =>
          default []
            (scan_tokens
               (fun text => bool_decide (lower text ∈ words_to_detect))
               data O (data_text data) [])
      end
  end.

Definition perform_ocr_privacy_mode (img : image)
    (patterns : list pattern_arg) : list box :=
  match threshold img with
  | None => []
  | Some thresholded =>
      match image_to_data thresholded with
      | None => []
      | Some data =>
          match mapM compile_arg patterns with
          | None => []
          | Some compiled_patterns =>
              default []
                (scan_tokens
                   (fun text =>
                      existsb (fun pattern => re_match pattern text)
                              compiled_patterns)
                   data O (data_text data) [])
          end
      end
  end.
End Filters.

(** ** The renderer: [redact_words] *)

Definition fits_c_int (v : Z) : bool := (- 2 ^ 31 <=? v) && (v <? 2 ^ 31).

Definition in_span (a b v : Z) : bool :=
  (Z.min a b <=? v) && (v <=? Z.max a b).

(** The colour tuple becomes a four-component scalar (missing components
    are 0) of which a pixel takes as many as it has channels. *)
Definition paint (color : list Z) (px : pixel) : pixel :=
  take (length px) (take 4 (color ++ [0; 0; 0; 0])).

(** [cv2.rectangle(image, pt1, pt2, color, -1)] on a frame the library
    draws on (a non-empty array of one to four channels, as the screen
    grabber delivers): the filled rectangle with opposite corners [pt1] and
    [pt2], both included, clipped to the image.  Coordinates must fit a C
    [int], otherwise the call raises. *)
Definition cv2_rectangle (img : image) (pt1 pt2 : Z * Z) (color : list Z)
  : option image :=
  if fits_c_int pt1.1 && fits_c_int pt1.2 && fits_c_int pt2.1 && fits_c_int pt2.2
  then Some
         (imap (fun r row =>
            imap (fun c px =>
              if in_span pt1.1 pt2.1 (Z.of_nat c) && in_span pt1.2 pt2.2 (Z.of_nat r)
              then paint color px else px) row) img)
  else None.

Inductive completion : Type := Returns | Raises.

(** The image is mutated in place: the result is the image as the call
    leaves it, and whether the call returned or raised on the way.  The
    [time.sleep(0.1)] after each rectangle only lets time pass. *)
Fixpoint redact_words (img : image) (word_boxes : list box) (padding : Z)
  : image * completion :=
  match word_boxes with
  | [] => (img, Returns)
  | (x, y, w, h) :: rest =>
      let x := x - padding in
      let y := y - padding in
      let w := w + 2 * padding in
      let h := h + 2 * padding in
      match cv2_rectangle img (x, y) (x + w, y + h) [255; 255; 255] with
      | Some img' => redact_words img' rest padding
      | None => (img, Raises)
      end
  end.

(** ** The box tracker: [is_matching_box] and [update_word_boxes] *)

Definition Qlt_bool (a b : Q) : bool := negb (Qle_bool b a).

(** [np.sqrt(d) < t] for a sum of squares [d], in exact arithmetic: the
    root of a non-negative number is below [t] exactly when [t] is positive
    and the number is below [t * t].  Centres of integer boxes are multiples
    of one half, so for coordinates of screen size the floating-point
    computation of the source is exact up to the root, and the comparison
    with the threshold 10 agrees with the one made here. *)
Definition sqrt_lt (d t : Q) : bool := Qlt_bool 0 t && Qlt_bool d (t * t).

Definition is_matching_box (box1 box2 : box) (threshold : Q) : bool :=
  let '(x1, y1, w1, h1) := box1 in
  let '(x2, y2, w2, h2) := box2 in
  let center1 := (inject_Z x1 + inject_Z w1 / 2, inject_Z y1 + inject_Z h1 / 2)%Q in
  let center2 := (inject_Z x2 + inject_Z w2 / 2, inject_Z y2 + inject_Z h2 / 2)%Q in
  sqrt_lt ((center1.1 - center2.1) ^ 2 + (center1.2 - center2.2) ^ 2)%Q threshold.

(** The [for box in current_word_boxes] loop, [updated] being
    [updated_word_boxes] so far. *)
Fixpoint update_loop (last_word_boxes current_word_boxes updated : list box)
  : list box :=
  match current_word_boxes with
  | [] => updated
  | b :: rest =>
      if negb (existsb (fun prev_box => is_matching_box b prev_box 10)
                       last_word_boxes)
      then update_loop last_word_boxes rest (updated ++ [b])
      else update_loop last_word_boxes rest updated
  end.

Definition update_word_boxes (last_word_boxes current_word_boxes : list box)
  : list box :=
  update_loop last_word_boxes current_word_boxes [] ++ last_word_boxes.

(** ** The capture loop: [capture_screen] *)

(** The loop's variables that survive an iteration.  [word_boxes] is
    unbound until the first detection. *)
Record loop_state : Type := LoopState {
  last_ocr_time : Q;
  word_boxes : option (list box)
}.

(** The library calls of the loop body that can raise; all of them sit
    inside the [try] of [capture_screen], whose handler ends the loop. *)
Inductive library_call : Type := Grab | CvtColor | Imshow | WaitKey.

(** What the outside world delivers during one iteration: the grabbed
    frame, the two clock readings, the key code of [cv2.waitKey] and the
    library call that raises during the iteration, if one does. *)
Record iteration : Type := Iteration {
  grabbed : image;
  time_at_test : Q;
  time_at_stamp : Q;
  key : Z;
  raising : option library_call
}.

(** An iteration either shows a frame, after which the loop ends when
    [quit] is set, or raises before anything is shown. *)
Inductive step : Type :=
| Shown (frame : image) (st : loop_state) (quit : bool)
| Crashed.

(** [ocr_interval = 0.05] *)
Definition ocr_interval : Q := 5 # 100.

(** [time.time() - last_ocr_time > ocr_interval] *)
Definition ocr_due (st : loop_state) (env : iteration) : bool :=
  Qlt_bool ocr_interval (time_at_test env - last_ocr_time st).

(** [key in (ord('q'), 27)] *)
Definition quit_key (k : Z) : bool :=
  bool_decide (k = 113) || bool_decide (k = 27).

Section Loop.
Context `{Collaborators}.

(** The boxes one detection finds on a grey image, in either mode. *)
Definition detect (words_to_detect : list string) (privacy_mode : bool)
    (gray : image) : list box :=
  if privacy_mode
  then perform_ocr_privacy_mode gray (PStr <$> words_to_detect)
  else perform_ocr gray words_to_detect.

(** [sct.grab] or [cv2.cvtColor] raises: the iteration ends before the
    detection. *)
Definition raises_early (env : iteration) : bool :=
  match raising env with
  | Some Grab | Some CvtColor => true
  | _ => false
  end.

(** The end of the loop body: [cv2.imshow], then [cv2.waitKey] and the
    test of the key.  When [imshow] raises nothing is shown; when
    [waitKey] raises the frame has been shown and the loop ends. *)
Definition show_and_poll (env : iteration) (frame : image) (st : loop_state)
  : step :=
  match raising env with
  | Some Imshow => Crashed
  | Some WaitKey => Shown frame st true
  | _ => Shown frame st (quit_key (key env))
  end.

(** One pass through the body of [while True].  An exception of a library
    call or of [redact_words] leaves the loop through the handler that
    encloses it. *)
Definition capture_iteration (words_to_detect : list string)
    (privacy_mode : bool) (st : loop_state) (env : iteration) : step :=
  if raises_early env then Crashed
  else
    let frame := grabbed env in
    let gray := cvtColor frame in
    if ocr_due st env then
      let last_ocr_time := time_at_stamp env in
      let word_boxes := detect words_to_detect privacy_mode gray in
      match redact_words frame word_boxes 1 with
      | (frame, Returns) =>
          show_and_poll env frame
            (LoopState last_ocr_time (Some word_boxes))
      | (_, Raises) => Crashed
      end
    else show_and_poll env frame st.

(** The frames handed to [cv2.imshow], each with the loop's variables
    after its iteration, for as long as the environment is described. *)
Fixpoint capture_loop (words_to_detect : list string) (privacy_mode : bool)
    (st : loop_state) (envs : list iteration) : list (image * loop_state) :=
  match envs with
  | [] => []
  | env :: rest =>
      match capture_iteration words_to_detect privacy_mode st env with
      | Shown frame st' quit =>
          (frame, st') ::
          (if quit then []
           else capture_loop words_to_detect privacy_mode st' rest)
      | Crashed => []
      end
  end.

(** [start] is the clock reading taken before the loop is entered. *)
Definition capture_screen (words_to_detect : list string)
    (privacy_mode : bool) (start : Q) (envs : list iteration)
  : list (image * loop_state) :=
  capture_loop words_to_detect privacy_mode (LoopState start None) envs.
End Loop.

(** The loop's variables at the beginning of iteration [k] of a run that
    was entered with [init]. *)
Definition state_before (init : loop_state)
    (trace : list (image * loop_state)) (k : nat) : option loop_state :=
  match k with
  | O => Some init
  | S j => snd <$> trace !! j
  end.

(** ** The tracked set as the specification words it

    The specification's capture loop keeps a tracked box set: empty when
    the loop starts, replaced on every detection cycle by the merge
    ([update_word_boxes]) of itself with the cycle's detections, and left
    alone otherwise.  [spec_tracked] is that set at the moment the frame of
    iteration [k] is output. *)
Section SpecTracked.
Context `{Collaborators}.

Fixpoint spec_tracked (words_to_detect : list string) (privacy_mode : bool)
    (last : Q) (tracked : list box) (envs : list iteration) (k : nat)
  : list box :=
  match envs with
  | [] => tracked
  | env :: rest =>
      let due := Qlt_bool ocr_interval (time_at_test env - last) in
      let tracked' :=
        if due
        then update_word_boxes tracked
               (detect words_to_detect privacy_mode (cvtColor (grabbed env)))
        else tracked in
      let last' := if due then time_at_stamp env else last in
      match k with
      | O => tracked'
      | S j => spec_tracked words_to_detect privacy_mode last' tracked' rest j
      end
  end.
End SpecTracked.

(** ** The script: how [__main__] builds the detection list *)

(** [str.split()]: the maximal runs of non-space characters. *)
Fixpoint split_words (cur : string) (s : string) : list string :=
  let flush := match cur with EmptyString => [] | _ => [cur] end in
  match s with
  | EmptyString => flush
  | String c rest =>
      if is_space_char c then flush ++ split_words EmptyString rest
      else split_words (cur +:+ String c EmptyString) rest
  end.

Definition split (s : string) : list string := split_words EmptyString s.

(** The part of [__main__] before the display is chosen: the two answers
    typed by the user give the detection list and the mode. *)
Definition main_words_to_detect (words_input privacy_answer : string)
  : list string * bool :=
  let words_to_redact :=
    match words_input with
    | EmptyString => default_redacted_words
    | _ => split words_input
    end in
  let words_to_detect := (generate_word_variations words_to_redact).2 in
  let privacy_mode := bool_decide (lower privacy_answer = "yes") in
  let words_to_detect :=
    if privacy_mode then
      let '(phone_number_patterns, ssn_patterns, ip_address_patterns) :=
        generate_patterns in
      ((words_to_detect ++ phone_number_patterns) ++ ssn_patterns)
        ++ ip_address_patterns
    else words_to_detect in
  (words_to_detect, privacy_mode).

(** ** Vocabulary for the statements *)

(** The tokens of an OCR result: text, confidence and box of each index. *)
Definition ocr_tokens (data : ocr_data) : list (string * Z * box) :=
  zip (zip (data_text data) (data_conf data))
      (zip (zip (zip (data_left data) (data_top data)) (data_width data))
           (data_height data)).

(** Every list of the dictionary has one entry per token. *)
Definition well_formed (data : ocr_data) : Prop :=
  length (data_conf data) = length (data_text data)
  /\ length (data_left data) = length (data_text data)
  /\ length (data_top data) = length (data_text data)
  /\ length (data_width data) = length (data_text data)
  /\ length (data_height data) = length (data_text data).

(** One box for each token that passes [test] with a positive confidence,
    in scan order. *)
Definition detection_boxes (test : string -> bool)
    (tokens : list (string * Z * box)) : list box :=
  flat_map (fun '(text, conf, b) =>
              if test text && (0 <? conf) then [b] else []) tokens.

(** The six patterns of [generate_patterns], compiled. *)
Definition sensitive_patterns : list string :=
  phone_number_patterns ++ ssn_patterns ++ ip_address_patterns.

Definition matches_any (patterns : list regex) (text : string) : bool :=
  existsb (fun pattern => re_match pattern text) patterns.

(** Anchored match of a pattern string; [false] if it does not compile. *)
Definition str_match (pattern text : string) : bool :=
  match re_compile pattern with
  | Some r => re_match r text
  | None => false
  end.

(** The squared distance between the centres of two boxes. *)
Definition centre_distance_sq (a b : box) : Q :=
  let '(x1, y1, w1, h1) := a in
  let '(x2, y2, w2, h2) := b in
  (((inject_Z x1 + inject_Z w1 / 2) - (inject_Z x2 + inject_Z w2 / 2)) ^ 2
   + ((inject_Z y1 + inject_Z h1 / 2) - (inject_Z y2 + inject_Z h2 / 2)) ^ 2)%Q.

(** A box of the current detections is new when it matches no box of the
    previous list (the test of [update_word_boxes]'s loop). *)
Definition is_new (last_word_boxes : list box) (b : box) : bool :=
  negb (existsb (fun prev_box => is_matching_box b prev_box 10) last_word_boxes).

Definition pixel_at (img : image) (r c : nat) : option pixel :=
  img !! r ≫= (.!! c).

(** The rectangle [redact_words] paints for a box: the box grown by the
    padding on every side, both corners included. *)
Definition in_expanded (b : box) (padding : Z) (r c : nat) : Prop :=
  let '(x, y, w, h) := b in
  in_span (x - padding) (x - padding + (w + 2 * padding)) (Z.of_nat c) = true
  /\ in_span (y - padding) (y - padding + (h + 2 * padding)) (Z.of_nat r) = true.

(** ** [list_displays] *)

Section Displays.
(** A monitor descriptor, opaque to the program. *)
Context {monitor : Type}.

(** The [while True] loop of the Windows branch: element [i] of the
    enumeration is appended until the index runs off its end
    ([IndexError]).  The enumeration [all] is taken to be the same at every
    call of [win32api.EnumDisplayMonitors]. *)
Fixpoint enum_loop (fuel : nat) (all : list monitor) (i : nat)
    (monitors : list monitor) : option (list monitor) :=
  match fuel with
  | O => None
  | S fuel =>
      match all !! i with
      | Some m => enum_loop fuel all (S i) (monitors ++ [m])
      | None => Some monitors
      end
  end.

(** [sys_platform] is [platform.system()]; [screeninfo] is the answer of
    [get_monitors()] and [win32] the enumeration of [win32api], [None] when
    the import or the call raises.  Every exception ends in the handler,
    which returns [None]. *)
Definition list_displays (sys_platform : string)
    (screeninfo win32 : option (list monitor)) : option (list monitor) :=
  if bool_decide (sys_platform = "Darwin") || bool_decide (sys_platform = "Linux")
  then
    match screeninfo with
    | None => None
    | Some [] => None
    | Some monitors => Some monitors
    end
  else if bool_decide (sys_platform = "Windows") then
    match win32 with
    | None => None
    | Some all =>
        match enum_loop (S (length all)) all O [] with
        | Some [] => None
        | Some monitors => Some monitors
        | None => None
        end
    end
  else None.
End Displays.

(** ** More vocabulary *)

(** The four corner coordinates [redact_words] hands to [cv2.rectangle]
    for a box all fit a C [int]. *)
Definition box_fits (padding : Z) (b : box) : bool :=
  let '(x, y, w, h) := b in
  fits_c_int (x - padding) && fits_c_int (y - padding)
  && fits_c_int (x - padding + (w + 2 * padding))
  && fits_c_int (y - padding + (h + 2 * padding)).

(** The boxes in front of the first one that does not fit. *)
Fixpoint fitting_prefix (padding : Z) (boxes : list box) : list box :=
  match boxes with
  | [] => []
  | b :: rest =>
      if box_fits padding b then b :: fitting_prefix padding rest else []
  end.

(** Position (row [r], column [c]) lies in the padded rectangle of one of
    the boxes. *)
Definition covered (boxes : list box) (padding : Z) (r c : nat) : bool :=
  existsb (fun '(x, y, w, h) =>
             in_span (x - padding) (x - padding + (w + 2 * padding)) (Z.of_nat c)
             && in_span (y - padding) (y - padding + (h + 2 * padding)) (Z.of_nat r))
          boxes.

(** The image with every covered pixel painted white. *)
Definition redacted (img : image) (boxes : list box) (padding : Z) : image :=
  imap (fun r row =>
          imap (fun c px =>
                  if covered boxes padding r c
                  then paint [255; 255; 255] px else px) row) img.

(** Twice the centre of a box, as integers. *)
Definition centre2 (b : box) : Z * Z :=
  let '(x, y, w, h) := b in (2 * x + w, 2 * y + h).

(** The pattern that matches the characters [cs] literally, one after the
    other. *)
Definition literal (cs : list ascii) : regex :=
  fold_right (fun c r => RSeq (RChar c) r) REmpty cs.

Definition is_alnum_char (c : ascii) : bool := is_alpha_char c || is_digit_char c.

(** The index of the first iteration that reads a quit key, if any. *)
Fixpoint first_quit (envs : list iteration) : option nat :=
  match envs with
  | [] => None
  | env :: rest =>
      if quit_key (key env) then Some O else S <$> first_quit rest
  end.

(** The sixteen suffixes a case form can carry: nothing, a punctuation
    mark, the plural letter, or the plural letter and a mark. *)
Definition suffixes (plural : string) : list string :=
  [""] ++ punctuation_marks ++ [plural]
       ++ ((fun mark => plural +:+ mark) <$> punctuation_marks).

(** A frame [cv2.rectangle] draws on: at least one row, no empty row and
    one to four channels in every pixel.  On any other array (an empty
    one, more than four channels) the call raises whatever the corners
    are; [cv2_rectangle] describes the call on accepted frames. *)
Definition accepted_frame (img : image) : Prop :=
  img <> []
  /\ Forall (fun row =>
              row <> []
              /\ Forall (fun px : pixel => (1 <= length px <= 4)%nat) row) img.

(** The pattern begins with a repetition sign, which has nothing to
    repeat: [re.compile] raises "nothing to repeat at position 0". *)
Definition starts_with_quantifier (pattern : string) : bool :=
  match pattern with
  | String c _ =>
      bool_decide (c = "*"%char) || bool_decide (c = "+"%char)
      || bool_decide (c = "?"%char)
  | EmptyString => false
  end.

(** A non-empty word of letters and digits. *)
Definition alnum_word (w : string) : Prop :=
  forallb is_alnum_char (list_ascii_of_string w) = true /\ w <> "".

(** ** Example data *)

(** A 1 x 3 strip of BGRA pixels, too small to hold any text, and the
    same strip with its middle pixel lit: the engine below reads the word
    "password" off the lit strip and nothing off any other image. *)
Definition blank_frame : image :=
  [[[0; 0; 0; 255]; [0; 0; 0; 255]; [0; 0; 0; 255]]].

Definition secret_frame : image :=
  [[[0; 0; 0; 255]; [90; 90; 90; 255]; [0; 0; 0; 255]]].

Definition no_tokens : ocr_data := OcrData [] [] [] [] [] [].

Definition one_token (text : string) (conf : Z) (b : box) : ocr_data :=
  let '(x, y, w, h) := b in OcrData [text] [conf] [x] [y] [w] [h].

(** Collaborators for the examples: grey conversion and thresholding leave
    the image alone, and the engine reports one token, [text] with
    confidence [conf], on the lit strip. *)
Definition reading (text : string) (conf : Z) : Collaborators := {|
  cvtColor := fun img => img;
  threshold := fun img => Some img;
  image_to_data := fun img =>
    if bool_decide (img = secret_frame)
    then Some (one_token text conf (1, 0, 1, 1))
    else Some no_tokens
|}.

(** No key pressed: [cv2.waitKey] answers -1. *)
Definition no_key : Z := -1.

(** The lit strip once its only box, padded, has been painted. *)
Definition white_strip : image :=
  [[[255; 255; 255; 0]; [255; 255; 255; 0]; [255; 255; 255; 0]]].

(** Three iterations: a detection on the lit strip at time 1, a detection
    on the blank strip at time 2, and an iteration 10 ms later, before the
    next detection is due. *)
Definition three_frames : list iteration :=
  [Iteration secret_frame 1 1 no_key None;
   Iteration blank_frame 2 2 no_key None;
   Iteration blank_frame (201 # 100) (201 # 100) no_key None].

(** Three iterations: a detection on the lit strip at time 1 (its box is
    painted, which takes the 0.1 s pause), a detection on the blank strip
    at time 2 that finds nothing, and 10 ms later, before the next
    detection is due, the lit strip on the screen again. *)
Definition secret_returns : list iteration :=
  [Iteration secret_frame 1 1 no_key None;
   Iteration blank_frame 2 2 no_key None;
   Iteration secret_frame (201 # 100) (201 # 100) no_key None].

(** A 20 x 20 BGR frame of one colour. *)
Definition plain_frame : image := replicate 20 (replicate 20 [7; 7; 7]).

(** A 6 x 12 BGRA frame of one colour. *)
Definition wide_frame : image := replicate 6 (replicate 12 [0; 0; 0; 255]).

(** Collaborators whose engine reads one token, [text] with confidence
    [conf] in box [b], off the image [target] and nothing off any other. *)
Definition reading_at (target : image) (text : string) (conf : Z) (b : box)
  : Collaborators := {|
  cvtColor := fun img => img;
  threshold := fun img => Some img;
  image_to_data := fun img =>
    if bool_decide (img = target)
    then Some (one_token text conf b)
    else Some no_tokens
|}.

(** One iteration on the wide frame, one second after the start. *)
Definition one_frame : list iteration := [Iteration wide_frame 1 1 no_key None].

(** Three iterations, the q key (113) being read in the second. *)
Definition quit_frames : list iteration :=
  [Iteration blank_frame 1 1 no_key None;
   Iteration blank_frame 2 2 113 None;
   Iteration blank_frame 3 3 no_key None].

(** ** The patterns on sample texts *)

Example compile_ssn_pattern :
  re_compile "\b\d{3}[-.\s]?\d{2}[-.\s]?\d{4}\b"
  = Some
      (RSeq (RBoundary false)
      (RSeq (RRepeat (RSet false [SDigit false]) 3 (Some 3%nat))
      (RSeq (RRepeat (RSet false [SChar "-"; SChar "."; SSpace false]) 0
                     (Some 1%nat))
      (RSeq (RRepeat (RSet false [SDigit false]) 2 (Some 2%nat))
      (RSeq (RRepeat (RSet false [SChar "-"; SChar "."; SSpace false]) 0
                     (Some 1%nat))
      (RSeq (RRepeat (RSet false [SDigit false]) 4 (Some 4%nat))
      (RSeq (RBoundary false) REmpty))))))).
Proof. vm_compute. reflexivity. Qed.

Example all_patterns_compile :
  is_Some (mapM re_compile sensitive_patterns).
Proof. vm_compute. by eexists. Qed.

(** Rows: the six patterns in order; columns: the sample texts. *)
Example patterns_on_samples :
  map (fun p => map (str_match p)
                  ["(555) 123-4567"; "5551234567"; "555-123-45678";
                   "192.168.1.1"; "1.2.3.4.5"; "2001:db8:0:0:0:0:0:1"; "apple"])
      sensitive_patterns
  = [[false; true; false; false; false; false; false];
     [true; false; false; false; false; false; false];
     [false; false; false; false; false; false; false];
     [false; false; false; true; true; false; false];
     [false; false; false; true; false; false; false];
     [false; false; false; false; false; true; false]].
Proof. vm_compute. reflexivity. Qed.

(** A word variation is compiled like any pattern: the full stop of
    "apple." stands for any character and the match is a prefix match. *)
Example variations_as_patterns :
  map (fun p => map (str_match p) ["apple"; "applesauce"; "apple5"; "appl"])
      ["apple"; "apple."; "apple?"]
  = [[true; true; true; false];
     [false; true; true; false];
     [true; true; true; true]].
Proof. vm_compute. reflexivity. Qed.

(** ** The word-variation generator *)

Lemma word_variants_length (w : string) : length (word_variants w) = 48%nat.
Proof. reflexivity. Qed.

Lemma word_variants_in (words : list string) (w v : string) :
  w ∈ words -> v ∈ word_variants w -> v ∈ flat_map word_variants words.
Proof.
  rewrite !list_elem_of_In. intros Hw Hv. apply in_flat_map. eauto.
Qed.

Local Ltac pick_member :=
  repeat first [ apply list_elem_of_here | apply list_elem_of_further ].

Lemma word_variants_case (w v : string) :
  v ∈ [lower w; upper w; capitalize w] ->
  v ∈ word_variants w
  /\ forall mark, mark ∈ punctuation_marks -> v +:+ mark ∈ word_variants w.
Proof.
  intros Hv. unfold word_variants, punctuation_marks. cbn [flat_map app].
  rewrite !elem_of_cons in Hv.
  destruct Hv as [-> | [-> | [-> | Hnil]]]; [| | | by apply elem_of_nil in Hnil].
  all: split; [pick_member |].
  all: intros mark Hm; rewrite !elem_of_cons in Hm.
  all: destruct Hm as [-> | [-> | [-> | [-> | [-> | [-> | [-> | Hnil]]]]]]];
         [| | | | | | | by apply elem_of_nil in Hnil].
  all: pick_member.
Qed.

Lemma word_variants_plural (w p : string) :
  p ∈ [lower w +:+ "s"; upper w +:+ "S"; capitalize w +:+ "s"] ->
  p ∈ word_variants w
  /\ forall mark, mark ∈ punctuation_marks -> p +:+ mark ∈ word_variants w.
Proof.
  intros Hp. unfold word_variants, punctuation_marks. cbn [flat_map app].
  rewrite !elem_of_cons in Hp.
  destruct Hp as [-> | [-> | [-> | Hnil]]]; [| | | by apply elem_of_nil in Hnil].
  all: split; [pick_member |].
  all: intros mark Hm; rewrite !elem_of_cons in Hm.
  all: destruct Hm as [-> | [-> | [-> | [-> | [-> | [-> | [-> | Hnil]]]]]]];
         [| | | | | | | by apply elem_of_nil in Hnil].
  all: pick_member.
Qed.

(** The defaults are appended to the list before the loop runs, and the
    lower-case form of each is the word itself. *)
Lemma variations_contain_defaults (words : list string) (w : string) :
  w ∈ default_redacted_words -> w ∈ (generate_word_variations words).2.
Proof.
  intros Hw. unfold generate_word_variations. cbn [snd].
  change ["apple"; "banana"; "password"] with default_redacted_words.
  apply (word_variants_in _ w); [apply elem_of_app; by right |].
  unfold default_redacted_words in Hw. rewrite !elem_of_cons in Hw.
  destruct Hw as [-> | [-> | [-> | Hnil]]]; [| | | by apply elem_of_nil in Hnil].
  all: vm_compute; pick_member.
Qed.

(** C6.  Whatever word list is supplied, the generated variations contain
    the three defaults apple, banana and password; for every word of the
    list (defaults included) they contain its lower-case, upper-case and
    capitalised forms, each of these followed by each of the seven
    punctuation marks (full stop, comma, exclamation mark, question mark,
    double hyphen, hyphen, apostrophe), the three plural forms (s after the lower-case and
    capitalised forms, S after the upper-case one) and each plural followed
    by each mark; and the list holds exactly 48 entries per word. *)
Theorem word_variations_complete (words : list string) :
  let variations := (generate_word_variations words).2 in
  ("apple" ∈ variations /\ "banana" ∈ variations /\ "password" ∈ variations)
  /\ (forall w, w ∈ words ++ ["apple"; "banana"; "password"] ->
        (forall v, v ∈ [lower w; upper w; capitalize w] ->
           v ∈ variations
           /\ forall mark, mark ∈ ["."; ","; "!"; "?"; "--"; "-"; "'"] ->
                v +:+ mark ∈ variations)
        /\ (forall p, p ∈ [lower w +:+ "s"; upper w +:+ "S"; capitalize w +:+ "s"] ->
              p ∈ variations
              /\ forall mark, mark ∈ ["."; ","; "!"; "?"; "--"; "-"; "'"] ->
                   p +:+ mark ∈ variations))
  /\ length variations = (48 * (length words + 3))%nat.
Proof.
  cbn zeta. unfold generate_word_variations. cbn [snd].
  change ["apple"; "banana"; "password"] with default_redacted_words.
  assert (Hall : forall w, w ∈ words ++ default_redacted_words ->
            forall v, v ∈ word_variants w ->
              v ∈ flat_map word_variants (words ++ default_redacted_words)).
  { intros w Hw v Hv. by eapply word_variants_in. }
  split; [| split].
  - repeat split.
    all: apply (variations_contain_defaults words).
    all: unfold default_redacted_words; pick_member.
  - intros w Hw. split.
    + intros v Hv. destruct (word_variants_case w v Hv) as [H1 H2].
      split; [by apply (Hall w) | intros mark Hm; apply (Hall w); auto].
    + intros p Hp. destruct (word_variants_plural w p Hp) as [H1 H2].
      split; [by apply (Hall w) | intros mark Hm; apply (Hall w); auto].
  - rewrite (flat_map_constant_length (c := 48%nat)).
    + rewrite length_app. cbn [length default_redacted_words]. lia.
    + intros w _. apply word_variants_length.
Qed.

(** ** The token filters *)

Lemma ocr_tokens_length (data : ocr_data) :
  well_formed data -> length (ocr_tokens data) = length (data_text data).
Proof.
  intros (Hc & Hl & Ht & Hw & Hh). unfold ocr_tokens.
  rewrite !length_zip_with. lia.
Qed.

Lemma ocr_tokens_lookup (data : ocr_data) (i : nat) (text : string) :
  well_formed data ->
  data_text data !! i = Some text ->
  exists conf x y w h,
    data_conf data !! i = Some conf
    /\ data_left data !! i = Some x /\ data_top data !! i = Some y
    /\ data_width data !! i = Some w /\ data_height data !! i = Some h
    /\ ocr_tokens data !! i = Some (text, conf, (x, y, w, h)).
Proof.
  intros (Hc & Hl & Ht & Hw & Hh) Htext.
  assert (Hi : (i < length (data_text data))%nat) by by eapply lookup_lt_Some.
  destruct (lookup_lt_is_Some_2 (data_conf data) i) as [conf Hconf]; [lia |].
  destruct (lookup_lt_is_Some_2 (data_left data) i) as [x Hx]; [lia |].
  destruct (lookup_lt_is_Some_2 (data_top data) i) as [y Hy]; [lia |].
  destruct (lookup_lt_is_Some_2 (data_width data) i) as [w Hwi]; [lia |].
  destruct (lookup_lt_is_Some_2 (data_height data) i) as [h Hhi]; [lia |].
  exists conf, x, y, w, h. repeat (split; [done |]).
  unfold ocr_tokens. rewrite !lookup_zip_with.
  by rewrite Htext, Hconf, Hx, Hy, Hwi, Hhi.
Qed.

(** On a well-formed dictionary the scan never raises and appends, for the
    tokens from index [i] on, the boxes of those that pass. *)
Lemma scan_tokens_spec (test : string -> bool) (data : ocr_data) :
  well_formed data ->
  forall texts i acc,
    drop i (data_text data) = texts ->
    scan_tokens test data i texts acc
    = Some (acc ++ detection_boxes test (drop i (ocr_tokens data))).
Proof.
  intros Hwf texts. induction texts as [| text rest IH]; intros i acc Hdrop.
  - assert (Hlen : (length (data_text data) <= i)%nat).
    { apply (f_equal length) in Hdrop. rewrite length_drop in Hdrop.
      cbn in Hdrop. lia. }
    rewrite drop_ge by (rewrite ocr_tokens_length by done; lia).
    cbn. by rewrite app_nil_r.
  - assert (Htext : data_text data !! i = Some text).
    { rewrite <- (Nat.add_0_r i), <- lookup_drop, Hdrop. done. }
    destruct (ocr_tokens_lookup data i text Hwf Htext)
      as (conf & x & y & w & h & Hc & Hx & Hy & Hw & Hh & Htok).
    assert (Hrest : drop (S i) (data_text data) = rest).
    { rewrite (drop_S _ text i) in Hdrop by done. by injection Hdrop. }
    rewrite (drop_S (ocr_tokens data) _ i Htok).
    cbn [scan_tokens detection_boxes flat_map].
    rewrite Hc, Hx, Hy, Hw, Hh.
    destruct (test text); cbn [andb].
    + destruct (0 <? conf).
      * rewrite (IH (S i) _ Hrest). by rewrite <- app_assoc.
      * rewrite (IH (S i) _ Hrest). done.
    + rewrite (IH (S i) _ Hrest). done.
Qed.

(** Tokens without a positive confidence contribute nothing. *)
Lemma detection_boxes_positive (test : string -> bool)
    (tokens : list (string * Z * box)) :
  detection_boxes test tokens
  = detection_boxes test
      (List.filter (fun '(_, conf, _) => 0 <? conf) tokens).
Proof.
  unfold detection_boxes.
  induction tokens as [| [[text conf] b] rest IH]; [done |].
  cbn [flat_map List.filter]. destruct (0 <? conf) eqn:Hconf.
  - cbn [flat_map]. rewrite Hconf. by rewrite IH.
  - rewrite andb_false_r. cbn [app]. apply IH.
Qed.

Lemma elem_of_detection_boxes (test : string -> bool)
    (tokens : list (string * Z * box)) (b : box) :
  b ∈ detection_boxes test tokens
  <-> exists text conf,
        (text, conf, b) ∈ tokens /\ test text = true /\ 0 < conf.
Proof.
  unfold detection_boxes. rewrite list_elem_of_In, in_flat_map. split.
  - intros ([[text conf] b'] & Hin & Hb). exists text, conf.
    destruct (test text); cbn in Hb; [| done].
    destruct (Z.ltb_spec 0 conf); cbn in Hb; [| done].
    destruct Hb as [-> | []]. by rewrite list_elem_of_In.
  - intros (text & conf & Hin & Htest & Hconf).
    exists (text, conf, b). rewrite <- list_elem_of_In. split; [done |].
    rewrite Htest. apply Z.ltb_lt in Hconf. rewrite Hconf. by left.
Qed.

(** Without a positive confidence anywhere nothing is appended, whether
    the scan completes or raises. *)
Lemma scan_tokens_no_confidence (test : string -> bool) (data : ocr_data) :
  (forall conf, conf ∈ data_conf data -> conf <= 0) ->
  forall texts i acc,
    default [] (scan_tokens test data i texts acc) = acc
    \/ scan_tokens test data i texts acc = None.
Proof.
  intros Hconf texts. induction texts as [| text rest IH]; intros i acc.
  - by left.
  - cbn [scan_tokens]. destruct (test text); [| apply IH].
    destruct (data_conf data !! i) as [conf |] eqn:Hc; [| by right].
    assert (conf <= 0) by (apply Hconf; by eapply list_elem_of_lookup_2).
    destruct (Z.ltb_spec 0 conf); [lia | apply IH].
Qed.

(** C7.  In exact mode, on the OCR engine's output (one entry per token in
    every list), the boxes returned are exactly those of the tokens whose
    lower-cased text is in the word list and whose confidence is strictly
    positive, in scan order; a token produces a box if and only if both
    hold.  Tokens whose confidence is not positive can be removed from the
    OCR output without changing the result, whatever their text, and when
    no confidence is positive no box is produced at all. *)
Theorem exact_mode_token_filter `{Collaborators} (img thresholded : image)
    (data : ocr_data) (words_to_detect : list string) :
  threshold img = Some thresholded ->
  image_to_data thresholded = Some data ->
  (well_formed data ->
     perform_ocr img words_to_detect
     = detection_boxes (fun text => bool_decide (lower text ∈ words_to_detect))
                       (ocr_tokens data)
     /\ perform_ocr img words_to_detect
        = detection_boxes
            (fun text => bool_decide (lower text ∈ words_to_detect))
            (List.filter (fun '(_, conf, _) => 0 <? conf) (ocr_tokens data))
     /\ forall b, b ∈ perform_ocr img words_to_detect
          <-> exists text conf, (text, conf, b) ∈ ocr_tokens data
                /\ lower text ∈ words_to_detect /\ 0 < conf)
  /\ ((forall conf, conf ∈ data_conf data -> conf <= 0) ->
        perform_ocr img words_to_detect = []).
Proof.
  intros Hthr Hdata. unfold perform_ocr. rewrite Hthr, Hdata. split.
  - intros Hwf.
    rewrite (scan_tokens_spec _ data Hwf (data_text data) O []) by done.
    cbn [from_option app skipn id]. split; [done |].
    split; [apply detection_boxes_positive |].
    intros b. rewrite elem_of_detection_boxes.
    split; intros (text & conf & Hin & Ht & Hc); exists text, conf.
    + apply bool_decide_eq_true in Ht. done.
    + split; [done |]. split; [by apply bool_decide_eq_true | done].
  - intros Hconf.
    destruct (scan_tokens_no_confidence
                (fun text => bool_decide (lower text ∈ words_to_detect))
                data Hconf (data_text data) O []) as [-> | ->]; done.
Qed.

Lemma mapM_compile_strings (patterns : list string) :
  mapM compile_arg (PStr <$> patterns) = mapM re_compile patterns.
Proof.
  induction patterns as [| p rest IH]; [done |].
  cbn. rewrite IH. done.
Qed.

(** A text is matched by one of the compiled patterns exactly when it is
    matched by one of the strings they were compiled from. *)
Lemma matches_any_compiled (patterns : list string) (compiled : list regex)
    (text : string) :
  mapM re_compile patterns = Some compiled ->
  matches_any compiled text = true
  <-> exists p, p ∈ patterns /\ str_match p text = true.
Proof.
  rewrite mapM_Some. intros Hall. unfold matches_any.
  induction Hall as [| p r patterns compiled Hp Hall IH]; cbn [existsb].
  - split; [done |]. intros (p & Hin & _). by apply elem_of_nil in Hin.
  - rewrite orb_true_iff, IH. split.
    + intros [Hm | (q & Hin & Hm)].
      * exists p. split; [left |]. unfold str_match. by rewrite Hp.
      * exists q. split; [by right | done].
    + intros (q & Hin & Hm). apply elem_of_cons in Hin as [-> | Hin].
      * left. unfold str_match in Hm. by rewrite Hp in Hm.
      * right. eauto.
Qed.

(** When every pattern compiles, the privacy filter returns the boxes of
    the tokens matched by some compiled pattern with positive confidence. *)
Lemma privacy_filter_spec `{Collaborators} (img thresholded : image)
    (data : ocr_data) (patterns : list pattern_arg) (compiled : list regex) :
  threshold img = Some thresholded ->
  image_to_data thresholded = Some data ->
  well_formed data ->
  mapM compile_arg patterns = Some compiled ->
  perform_ocr_privacy_mode img patterns
  = detection_boxes (matches_any compiled) (ocr_tokens data).
Proof.
  intros Hthr Hdata Hwf Hcomp. unfold perform_ocr_privacy_mode.
  rewrite Hthr, Hdata, Hcomp.
  rewrite (scan_tokens_spec _ data Hwf (data_text data) O []) by done.
  done.
Qed.

Lemma main_privacy_list (words_input : string) :
  main_words_to_detect words_input "yes"
  = ((generate_word_variations
        (match words_input with
         | EmptyString => default_redacted_words
         | _ => split words_input
         end)).2 ++ sensitive_patterns, true).
Proof.
  unfold main_words_to_detect, sensitive_patterns.
  cbn [generate_patterns lower str_map]. rewrite <- !app_assoc. done.
Qed.

(** C3 (as amended).  In a privacy-mode session the list handed to the
    filter is the word variations followed by the six fixed patterns, and
    every entry of it is compiled as a pattern.  When they all compile, a
    token of the OCR output produces a box if and only if its confidence is
    strictly positive and its text is matched, from its first character on,
    by at least one entry of that list, word variation or fixed pattern. *)
Theorem privacy_mode_token_filter `{Collaborators} (img thresholded : image)
    (data : ocr_data) (words_input : string) (compiled : list regex) :
  threshold img = Some thresholded ->
  image_to_data thresholded = Some data ->
  well_formed data ->
  mapM re_compile (main_words_to_detect words_input "yes").1 = Some compiled ->
  (exists variations,
     (main_words_to_detect words_input "yes").1
     = variations ++ sensitive_patterns
     /\ (forall w, w ∈ default_redacted_words -> w ∈ variations))
  /\ perform_ocr_privacy_mode img
       (PStr <$> (main_words_to_detect words_input "yes").1)
     = detection_boxes (matches_any compiled) (ocr_tokens data)
  /\ forall b,
       b ∈ perform_ocr_privacy_mode img
             (PStr <$> (main_words_to_detect words_input "yes").1)
       <-> exists text conf,
             (text, conf, b) ∈ ocr_tokens data
             /\ (exists p, p ∈ (main_words_to_detect words_input "yes").1
                           /\ str_match p text = true)
             /\ 0 < conf.
Proof.
  intros Hthr Hdata Hwf Hcomp.
  assert (Heq : perform_ocr_privacy_mode img
                  (PStr <$> (main_words_to_detect words_input "yes").1)
                = detection_boxes (matches_any compiled) (ocr_tokens data)).
  { eapply privacy_filter_spec; [done | done | done |].
    by rewrite mapM_compile_strings. }
  split; [| split; [done |]].
  - rewrite main_privacy_list. cbn [fst]. eexists. split; [done |].
    intros w Hw. by apply variations_contain_defaults.
  - intros b. rewrite Heq, elem_of_detection_boxes.
    split; intros (text & conf & Hin & Hm & Hc); exists text, conf;
      (split; [done |]); (split; [| done]).
    + by apply (matches_any_compiled _ _ _ Hcomp).
    + by apply (matches_any_compiled _ _ _ Hcomp).
Qed.

Lemma exact_mode_token_filter_witness :
  (@threshold (reading "Password" 96) secret_frame = Some secret_frame
   /\ @image_to_data (reading "Password" 96) secret_frame
      = Some (one_token "Password" 96 (1, 0, 1, 1))
   /\ well_formed (one_token "Password" 96 (1, 0, 1, 1))
   /\ @perform_ocr (reading "Password" 96) secret_frame
        (main_words_to_detect "" "no").1 = [(1, 0, 1, 1)])
  /\ ((forall conf, conf ∈ data_conf (one_token "password" 0 (1, 0, 1, 1)) ->
         conf <= 0)
      /\ @perform_ocr (reading "password" 0) secret_frame
           (main_words_to_detect "" "no").1 = []).
Proof.
  assert (Hwf : well_formed (one_token "Password" 96 (1, 0, 1, 1))).
  { repeat split. }
  assert (Hlow : forall conf,
            conf ∈ data_conf (one_token "password" 0 (1, 0, 1, 1)) -> conf <= 0).
  { intros conf Hin. apply list_elem_of_singleton in Hin. by subst conf. }
  split.
  - split; [reflexivity |]. split; [reflexivity |]. split; [exact Hwf |].
    destruct (@exact_mode_token_filter (reading "Password" 96)
                secret_frame secret_frame
                (one_token "Password" 96 (1, 0, 1, 1))
                (main_words_to_detect "" "no").1 eq_refl eq_refl)
      as [Hboxes _].
    destruct (Hboxes Hwf) as (Heq & _ & _). rewrite Heq. vm_compute.
    reflexivity.
  - split; [exact Hlow |].
    destruct (@exact_mode_token_filter (reading "password" 0)
                secret_frame secret_frame
                (one_token "password" 0 (1, 0, 1, 1))
                (main_words_to_detect "" "no").1 eq_refl eq_refl)
      as [_ Hnone].
    exact (Hnone Hlow).
Defined.

(** C3, counterexample.  The user accepts the default words and enables
    privacy mode; the OCR engine reads the token "apple" with confidence
    96.  The privacy filter returns its box, although none of the six fixed
    patterns matches "apple": the word variations are in the list and are
    compiled and matched like the patterns. *)
Lemma privacy_mode_matches_word_list :
  @perform_ocr_privacy_mode (reading "apple" 96) secret_frame
     (PStr <$> (main_words_to_detect "" "yes").1) = [(1, 0, 1, 1)]
  /\ well_formed (one_token "apple" 96 (1, 0, 1, 1))
  /\ detection_boxes
       (fun text => existsb (fun p => str_match p text) sensitive_patterns)
       (ocr_tokens (one_token "apple" 96 (1, 0, 1, 1))) = [].
Proof.
  split; [vm_compute; reflexivity |].
  split; [repeat split | vm_compute; reflexivity].
Qed.

Lemma privacy_mode_token_filter_witness :
  @threshold (reading "192.168.1.1" 80) secret_frame = Some secret_frame
  /\ @image_to_data (reading "192.168.1.1" 80) secret_frame
     = Some (one_token "192.168.1.1" 80 (1, 0, 1, 1))
  /\ well_formed (one_token "192.168.1.1" 80 (1, 0, 1, 1))
  /\ is_Some (mapM re_compile (main_words_to_detect "" "yes").1)
  /\ @perform_ocr_privacy_mode (reading "192.168.1.1" 80) secret_frame
       (PStr <$> (main_words_to_detect "" "yes").1) = [(1, 0, 1, 1)].
Proof.
  assert (Hwf : well_formed (one_token "192.168.1.1" 80 (1, 0, 1, 1))).
  { repeat split. }
  destruct (mapM re_compile (main_words_to_detect "" "yes").1)
    as [compiled |] eqn:Hcomp; [| vm_compute in Hcomp; discriminate Hcomp].
  split; [reflexivity |]. split; [reflexivity |]. split; [exact Hwf |].
  split; [by eexists |].
  destruct (@privacy_mode_token_filter (reading "192.168.1.1" 80)
              secret_frame secret_frame
              (one_token "192.168.1.1" 80 (1, 0, 1, 1)) "" compiled
              eq_refl eq_refl Hwf Hcomp) as (_ & Heq & _).
  rewrite Heq. vm_compute in Hcomp. injection Hcomp as <-.
  vm_compute. reflexivity.
Defined.

(** C5.  The phone and SSN patterns compile; "555-123-4567" is matched by
    a phone-number pattern and not by the SSN pattern; "123-45-6789" is
    matched by the SSN pattern and by neither phone-number pattern.  The
    privacy filter, given the patterns of one kind only, behaves
    accordingly on a token carrying either text. *)
Theorem phone_and_ssn_not_cross_matched :
  is_Some (mapM re_compile (phone_number_patterns ++ ssn_patterns))
  /\ existsb (fun p => str_match p "555-123-4567") phone_number_patterns = true
  /\ existsb (fun p => str_match p "555-123-4567") ssn_patterns = false
  /\ existsb (fun p => str_match p "123-45-6789") ssn_patterns = true
  /\ existsb (fun p => str_match p "123-45-6789") phone_number_patterns = false
  /\ @perform_ocr_privacy_mode (reading "555-123-4567" 90) secret_frame
       (PStr <$> phone_number_patterns) = [(1, 0, 1, 1)]
  /\ @perform_ocr_privacy_mode (reading "555-123-4567" 90) secret_frame
       (PStr <$> ssn_patterns) = []
  /\ @perform_ocr_privacy_mode (reading "123-45-6789" 90) secret_frame
       (PStr <$> ssn_patterns) = [(1, 0, 1, 1)]
  /\ @perform_ocr_privacy_mode (reading "123-45-6789" 90) secret_frame
       (PStr <$> phone_number_patterns) = [].
Proof.
  split; [vm_compute; by eexists |].
  repeat split; vm_compute; reflexivity.
Qed.

(** ** The box tracker *)

Lemma Qlt_bool_iff (a b : Q) : Qlt_bool a b = true <-> (a < b)%Q.
Proof.
  unfold Qlt_bool. rewrite negb_true_iff, <- not_true_iff_false, Qle_bool_iff.
  split; [apply Qnot_le_lt | apply Qlt_not_le].
Qed.

Lemma Qlt_bool_comp (a a' b b' : Q) :
  (a == a')%Q -> (b == b')%Q -> Qlt_bool a b = Qlt_bool a' b'.
Proof.
  intros Ha Hb. unfold Qlt_bool. f_equal. by apply Qleb_comp.
Qed.

Lemma is_matching_box_iff (a b : box) (t : Q) :
  is_matching_box a b t = true
  <-> (0 < t)%Q /\ (centre_distance_sq a b < t * t)%Q.
Proof.
  destruct a as [[[x1 y1] w1] h1], b as [[[x2 y2] w2] h2].
  unfold is_matching_box, sqrt_lt, centre_distance_sq. cbn [fst snd].
  by rewrite andb_true_iff, !Qlt_bool_iff.
Qed.

(** C8.  The matching test gives the same answer when its two boxes are
    exchanged, for every pair of boxes and every threshold. *)
Theorem is_matching_box_symmetric (a b : box) (t : Q) :
  is_matching_box a b t = is_matching_box b a t.
Proof.
  destruct a as [[[x1 y1] w1] h1], b as [[[x2 y2] w2] h2].
  unfold is_matching_box, sqrt_lt. cbn [fst snd]. f_equal.
  apply Qlt_bool_comp; [| reflexivity]. ring.
Qed.

Lemma update_loop_spec (last current updated : list box) :
  update_loop last current updated
  = updated ++ List.filter (is_new last) current.
Proof.
  revert updated. induction current as [| b rest IH]; intros updated; cbn.
  - by rewrite app_nil_r.
  - fold (is_new last b). destruct (is_new last b).
    + rewrite IH. by rewrite <- app_assoc.
    + apply IH.
Qed.

Lemma is_new_iff (last : list box) (b : box) :
  is_new last b = true
  <-> forall p, p ∈ last -> ~ (centre_distance_sq b p < 10 * 10)%Q.
Proof.
  unfold is_new. rewrite negb_true_iff, <- not_true_iff_false, existsb_exists.
  split.
  - intros Hnone p Hp Hclose. apply Hnone. exists p.
    split; [by apply list_elem_of_In |].
    apply is_matching_box_iff. split; [reflexivity | done].
  - intros Hfar (p & Hp & Hm). apply is_matching_box_iff in Hm as [_ Hm].
    apply (Hfar p); [by apply list_elem_of_In | done].
Qed.

(** C4.  For all lists [previous] and [current], the merge returns the
    boxes of [current] that match no box of [previous] (their centre is not
    within 10 pixels of the centre of any of them), in their original
    order, followed by [previous] unchanged; hence the result is at least as
    long as [previous], and merging with no detections returns
    [previous]. *)
Theorem update_word_boxes_spec (previous current : list box) :
  update_word_boxes previous current
  = List.filter (is_new previous) current ++ previous
  /\ (forall b, b ∈ List.filter (is_new previous) current
        <-> b ∈ current
            /\ forall p, p ∈ previous ->
                 ~ (centre_distance_sq b p < 10 * 10)%Q)
  /\ (length previous <= length (update_word_boxes previous current))%nat
  /\ update_word_boxes previous [] = previous.
Proof.
  assert (Heq : update_word_boxes previous current
                = List.filter (is_new previous) current ++ previous).
  { unfold update_word_boxes. by rewrite update_loop_spec. }
  split; [exact Heq |]. split; [| split].
  - intros b. rewrite list_elem_of_In, filter_In, <- list_elem_of_In.
    by rewrite is_new_iff.
  - rewrite Heq, length_app. lia.
  - reflexivity.
Qed.

(** The two merge scenarios of the specification. *)
Example merge_nearby_box :
  update_word_boxes [(10, 10, 20, 20)] [(11, 11, 20, 20)] = [(10, 10, 20, 20)].
Proof. vm_compute. reflexivity. Qed.

Example merge_distant_box :
  update_word_boxes [(10, 10, 20, 20)] [(500, 500, 20, 20)]
  = [(500, 500, 20, 20); (10, 10, 20, 20)].
Proof. vm_compute. reflexivity. Qed.

(** ** The renderer *)

Lemma cv2_rectangle_pixel (img img' : image) (pt1 pt2 : Z * Z)
    (color : list Z) (r c : nat) :
  cv2_rectangle img pt1 pt2 color = Some img' ->
  pixel_at img' r c
  = (fun px =>
       if in_span pt1.1 pt2.1 (Z.of_nat c) && in_span pt1.2 pt2.2 (Z.of_nat r)
       then paint color px else px) <$> pixel_at img r c.
Proof.
  unfold cv2_rectangle, pixel_at.
  destruct (_ && _ && _ && _); [| done]. intros [= <-].
  unfold image, pixel in *. rewrite list_lookup_imap.
  destruct (img !! r) as [row |]; [| done].
  cbn. by rewrite list_lookup_imap.
Qed.

(** C10.  For every frame, box list and padding, a pixel that lies in none
    of the padding-expanded rectangles of the boxes has the same value after
    the call as before (also when the call raises part-way; positions
    outside the frame stay outside). *)
Theorem redact_words_frame (img : image) (boxes : list box) (padding : Z)
    (r c : nat) :
  (forall b, b ∈ boxes -> ~ in_expanded b padding r c) ->
  pixel_at (redact_words img boxes padding).1 r c = pixel_at img r c.
Proof.
  revert img. induction boxes as [| [[[x y] w] h] rest IH]; intros img Hout.
  - done.
  - cbn [redact_words].
    destruct (cv2_rectangle img _ _ _) as [img' |] eqn:Hrect; [| done].
    rewrite IH by (intros b Hb; apply Hout; by right).
    rewrite (cv2_rectangle_pixel _ _ _ _ _ _ _ Hrect). cbn [fst snd].
    assert (Hnot : ~ in_expanded (x, y, w, h) padding r c)
      by (apply Hout; by left).
    unfold in_expanded in Hnot.
    destruct (in_span (x - padding) _ _), (in_span (y - padding) _ _);
      cbn [andb]; try (by destruct (pixel_at img r c)).
    exfalso. by apply Hnot.
Qed.

Lemma redact_words_frame_witness :
  (forall b, b ∈ [(5, 5, 10, 10)] -> ~ in_expanded b 1 3%nat 17%nat)
  /\ pixel_at (redact_words plain_frame [(5, 5, 10, 10)] 1).1 3 17
     = Some [7; 7; 7].
Proof.
  assert (Hout : forall b : box,
            b ∈ [(5, 5, 10, 10)] -> ~ in_expanded b 1 3%nat 17%nat).
  { intros b Hb. apply list_elem_of_singleton in Hb. subst b.
    intros [_ Hrow]. vm_compute in Hrow. discriminate Hrow. }
  split; [exact Hout |].
  rewrite (redact_words_frame plain_frame [(5, 5, 10, 10)] 1 3 17 Hout).
  reflexivity.
Defined.

(** C9.  After [redact_words(frame, [(5, 5, 10, 10)], padding=1)] the call
    has returned and every pixel of the frame in rows 4 to 16 and columns 4
    to 16 holds the fill colour: the components of (255, 255, 255), then 0,
    as many as the pixel has channels. *)
Theorem redact_words_example (img : image) (r c : nat) (px : pixel) :
  (4 <= r <= 16)%nat -> (4 <= c <= 16)%nat ->
  pixel_at img r c = Some px ->
  (redact_words img [(5, 5, 10, 10)] 1).2 = Returns
  /\ pixel_at (redact_words img [(5, 5, 10, 10)] 1).1 r c
     = Some (take (length px) [255; 255; 255; 0]).
Proof.
  intros Hr Hc Hpx. cbn [redact_words].
  destruct (cv2_rectangle img _ _ _) as [img' |] eqn:Hrect;
    [| by vm_compute in Hrect].
  split; [done |]. cbn [fst].
  rewrite (cv2_rectangle_pixel _ _ _ _ _ _ _ Hrect), Hpx. cbn [fst snd fmap option_fmap option_map].
  assert (Hin : in_span (5 - 1) (5 - 1 + (10 + 2 * 1)) (Z.of_nat c)
                && in_span (5 - 1) (5 - 1 + (10 + 2 * 1)) (Z.of_nat r) = true).
  { unfold in_span. apply andb_true_iff. split; apply andb_true_iff; split;
      apply Z.leb_le; lia. }
  rewrite Hin. done.
Qed.

Lemma redact_words_example_witness :
  ((4 <= 16 <= 16)%nat /\ (4 <= 4 <= 16)%nat
   /\ pixel_at plain_frame 16 4 = Some [7; 7; 7])
  /\ pixel_at (redact_words plain_frame [(5, 5, 10, 10)] 1).1 16 4
     = Some [255; 255; 255].
Proof.
  assert (Hr : (4 <= 16 <= 16)%nat) by (split; repeat constructor).
  assert (Hc : (4 <= 4 <= 16)%nat) by (split; repeat constructor).
  split; [split; [exact Hr | split; [exact Hc | reflexivity]] |].
  destruct (redact_words_example plain_frame 16 4 [7; 7; 7] Hr Hc eq_refl)
    as [_ Hpx].
  exact Hpx.
Defined.

(** ** The capture loop *)

Section LoopFacts.
Context `{Collaborators}.
Variables (words_to_detect : list string) (privacy_mode : bool).

(** What an iteration that shows a frame has done. *)
Lemma capture_iteration_shown (st st' : loop_state) (env : iteration)
    (frame : image) (quit : bool) :
  capture_iteration words_to_detect privacy_mode st env = Shown frame st' quit ->
  let found := detect words_to_detect privacy_mode (cvtColor (grabbed env)) in
  if ocr_due st env
  then frame = (redact_words (grabbed env) found 1).1
       /\ st' = LoopState (time_at_stamp env) (Some found)
  else frame = grabbed env /\ st' = st.
Proof.
  unfold capture_iteration, show_and_poll. cbn zeta.
  destruct (raises_early env); [done |]. destruct (ocr_due st env).
  - destruct (redact_words _ _ _) as [frame' []]; [| done].
    destruct (raising env) as [[] |]; try done; intros [= <- <- _]; done.
  - destruct (raising env) as [[] |]; try done; intros [= <- <- _]; done.
Qed.

(** Every entry of a run was produced by one iteration, started in the
    state the previous entry records. *)
Lemma capture_loop_entry (envs : list iteration) :
  forall (init : loop_state) (k : nat) (env : iteration) (frame : image)
         (st' : loop_state),
    envs !! k = Some env ->
    capture_loop words_to_detect privacy_mode init envs !! k
      = Some (frame, st') ->
    exists st quit,
      state_before init
        (capture_loop words_to_detect privacy_mode init envs) k = Some st
      /\ capture_iteration words_to_detect privacy_mode st env
         = Shown frame st' quit.
Proof.
  induction envs as [| env0 rest IH]; intros init k env frame st' Henv Hk.
  - done.
  - cbn [capture_loop] in *.
    destruct (capture_iteration words_to_detect privacy_mode init env0)
      as [frame0 st0 quit0 |] eqn:Hstep; [| done].
    destruct k as [| j].
    + cbn in Henv, Hk. injection Henv as <-. injection Hk as <- <-.
      exists init, quit0. done.
    + cbn [lookup list_lookup] in Henv, Hk.
      destruct quit0; [done |].
      destruct (IH st0 j env frame st' Henv Hk) as (st & quit & Hst & Hit).
      exists st, quit. split; [| done].
      destruct j as [| j']; cbn in Hst |- *; done.
Qed.
End LoopFacts.

(** The loop as written.  In a run of the capture loop, every frame that is
    shown comes from one iteration.  If a detection was due in that
    iteration (more than the interval has passed since the last one), the
    frame shown is the grabbed frame with the boxes detected on it, and only
    those, painted with padding 1; if no detection was due, the frame shown
    is the grabbed frame as it is, with nothing painted. *)
Theorem shown_frame_painted_only_when_due `{Collaborators}
    (words_to_detect : list string) (privacy_mode : bool) (start : Q)
    (envs : list iteration) (k : nat) (env : iteration) (frame : image)
    (st' : loop_state) :
  envs !! k = Some env ->
  capture_screen words_to_detect privacy_mode start envs !! k
    = Some (frame, st') ->
  exists st,
    state_before (LoopState start None)
      (capture_screen words_to_detect privacy_mode start envs) k = Some st
    /\ if ocr_due st env
       then frame
            = (redact_words (grabbed env)
                 (detect words_to_detect privacy_mode (cvtColor (grabbed env)))
                 1).1
       else frame = grabbed env.
Proof.
  intros Henv Hk. unfold capture_screen in *.
  destruct (capture_loop_entry _ _ _ _ _ _ _ _ Henv Hk)
    as (st & quit & Hst & Hit).
  exists st. split; [done |].
  apply capture_iteration_shown in Hit. cbn zeta in Hit.
  destruct (ocr_due st env); by destruct Hit.
Qed.

(** The loop as written.  In a run of the capture loop, a detection cycle
    leaves in the loop's box list exactly the boxes detected on the frame
    of that cycle, whatever the list held before; an iteration without
    detection leaves the list as it was. *)
Theorem detection_cycle_replaces_boxes `{Collaborators}
    (words_to_detect : list string) (privacy_mode : bool) (start : Q)
    (envs : list iteration) (k : nat) (env : iteration) (frame : image)
    (st' : loop_state) :
  envs !! k = Some env ->
  capture_screen words_to_detect privacy_mode start envs !! k
    = Some (frame, st') ->
  exists st,
    state_before (LoopState start None)
      (capture_screen words_to_detect privacy_mode start envs) k = Some st
    /\ if ocr_due st env
       then word_boxes st'
            = Some (detect words_to_detect privacy_mode (cvtColor (grabbed env)))
       else word_boxes st' = word_boxes st.
Proof.
  intros Henv Hk. unfold capture_screen in *.
  destruct (capture_loop_entry _ _ _ _ _ _ _ _ Henv Hk)
    as (st & quit & Hst & Hit).
  exists st. split; [done |].
  apply capture_iteration_shown in Hit. cbn zeta in Hit.
  destruct (ocr_due st env); destruct Hit as [_ ->]; done.
Qed.

(** The tracked set of the specification against the loop.  Exact mode
    with the default words; the engine
    reads "password" off the lit strip.  The first frame is shown painted.
    The second iteration runs a detection that finds nothing, the third
    runs none: both show the blank strip untouched, although the tracked
    set of the specification still holds the box of the first cycle and
    painting it would turn the strip white. *)
Lemma tracked_boxes_not_repainted :
  (@capture_screen (reading "password" 96)
     (main_words_to_detect "" "no").1 false 0 three_frames).*1
  = [white_strip; blank_frame; blank_frame]
  /\ @spec_tracked (reading "password" 96)
       (main_words_to_detect "" "no").1 false 0 [] three_frames 1
     = [(1, 0, 1, 1)]
  /\ @spec_tracked (reading "password" 96)
       (main_words_to_detect "" "no").1 false 0 [] three_frames 2
     = [(1, 0, 1, 1)]
  /\ (redact_words blank_frame [(1, 0, 1, 1)] 1).1 = white_strip
  /\ white_strip <> blank_frame.
Proof.
  repeat split; try (vm_compute; reflexivity). discriminate.
Qed.

(** C2.  The loop on [three_frames], exact mode with the default words,
    the engine reading "password" off the lit strip: the loop's box list
    holds the box of the lit strip after the first detection cycle and is
    empty after the second.  The second cycle's (empty) detections have
    replaced it, where the merge of [update_word_boxes], which the loop
    never calls, keeps the box. *)
Lemma second_cycle_drops_boxes :
  (fun entry => word_boxes entry.2)
    <$> @capture_screen (reading "password" 96)
          (main_words_to_detect "" "no").1 false 0 three_frames
  = [Some [(1, 0, 1, 1)]; Some []; Some []]
  /\ update_word_boxes [(1, 0, 1, 1)] [] = [(1, 0, 1, 1)].
Proof.
  split; vm_compute; reflexivity.
Qed.

Lemma shown_frame_painted_only_when_due_witness :
  (three_frames !! 2%nat = Some (Iteration blank_frame (201 # 100) (201 # 100) no_key None)
   /\ @capture_screen (reading "password" 96)
        (main_words_to_detect "" "no").1 false 0 three_frames !! 2%nat
      = Some (blank_frame, LoopState 2 (Some [])))
  /\ exists st,
       state_before (LoopState 0 None)
         (@capture_screen (reading "password" 96)
            (main_words_to_detect "" "no").1 false 0 three_frames) 2
       = Some st
       /\ ocr_due st (Iteration blank_frame (201 # 100) (201 # 100) no_key None)
          = false.
Proof.
  assert (Hk : @capture_screen (reading "password" 96)
                 (main_words_to_detect "" "no").1 false 0 three_frames !! 2%nat
               = Some (blank_frame, LoopState 2 (Some []))).
  { vm_compute. reflexivity. }
  split; [split; [reflexivity | exact Hk] |].
  destruct (@shown_frame_painted_only_when_due (reading "password" 96)
              (main_words_to_detect "" "no").1 false 0 three_frames 2
              _ _ _ eq_refl Hk) as (st & Hst & _).
  exists st. split; [exact Hst |].
  vm_compute in Hst. injection Hst as <-. vm_compute. reflexivity.
Defined.

Lemma detection_cycle_replaces_boxes_witness :
  (three_frames !! 1%nat = Some (Iteration blank_frame 2 2 no_key None)
   /\ @capture_screen (reading "password" 96)
        (main_words_to_detect "" "no").1 false 0 three_frames !! 1%nat
      = Some (blank_frame, LoopState 2 (Some [])))
  /\ exists st,
       state_before (LoopState 0 None)
         (@capture_screen (reading "password" 96)
            (main_words_to_detect "" "no").1 false 0 three_frames) 1
       = Some st
       /\ word_boxes st = Some [(1, 0, 1, 1)].
Proof.
  assert (Hk : @capture_screen (reading "password" 96)
                 (main_words_to_detect "" "no").1 false 0 three_frames !! 1%nat
               = Some (blank_frame, LoopState 2 (Some []))).
  { vm_compute. reflexivity. }
  split; [split; [reflexivity | exact Hk] |].
  destruct (@detection_cycle_replaces_boxes (reading "password" 96)
              (main_words_to_detect "" "no").1 false 0 three_frames 1
              _ _ _ eq_refl Hk) as (st & Hst & _).
  exists st. split; [exact Hst |].
  vm_compute in Hst. injection Hst as <-. reflexivity.
Defined.

(** ** More on the renderer *)

Lemma imap_compose {A B C : Type} (g : nat -> B -> C) (f : nat -> A -> B)
    (l : list A) :
  imap g (imap f l) = imap (fun i x => g i (f i x)) l.
Proof.
  revert f g. induction l as [| x l IH]; intros f g; [done |].
  cbn. f_equal. apply IH.
Qed.

Lemma paint_paint (color : list Z) (px : pixel) :
  paint color (paint color px) = paint color px.
Proof.
  unfold paint, pixel in *.
  assert (Hlen : length (take 4 (color ++ [0; 0; 0; 0])) = 4%nat).
  { rewrite length_take, length_app. cbn [length]. lia. }
  rewrite length_take, Hlen.
  destruct (decide (length px <= 4)%nat) as [Hle | Hgt].
  - by rewrite Nat.min_l.
  - rewrite Nat.min_r by lia.
    rewrite (take_ge _ (length px)) by lia. by rewrite take_ge by lia.
Qed.

Lemma cv2_rectangle_fits (img : image) (x y w h padding : Z) :
  cv2_rectangle img (x - padding, y - padding)
    (x - padding + (w + 2 * padding), y - padding + (h + 2 * padding))
    [255; 255; 255]
  = if box_fits padding (x, y, w, h)
    then Some (redacted img [(x, y, w, h)] padding)
    else None.
Proof.
  unfold cv2_rectangle, box_fits, redacted, covered. cbn [fst snd existsb].
  destruct (_ && _ && _ && _); [| done].
  f_equal. apply imap_ext. intros r row _. apply imap_ext. intros c px _.
  by rewrite orb_false_r.
Qed.

Lemma redacted_cons (img : image) (b : box) (boxes : list box) (padding : Z) :
  redacted (redacted img [b] padding) boxes padding
  = redacted img (b :: boxes) padding.
Proof.
  unfold redacted. rewrite imap_compose. apply imap_ext. intros r row _.
  rewrite imap_compose. apply imap_ext. intros c px _.
  destruct b as [[[x y] w] h].
  unfold covered. cbn [existsb]. rewrite orb_false_r.
  destruct (in_span _ _ _ && in_span _ _ _); cbn [orb]; [| done].
  match goal with
  | |- context [existsb ?f boxes] => destruct (existsb f boxes)
  end; [apply paint_paint | done].
Qed.

Lemma redacted_nil (img : image) (padding : Z) : redacted img [] padding = img.
Proof.
  unfold redacted. cbn [covered existsb].
  induction img as [| row img IH] using rev_ind; [done |].
  rewrite imap_app. cbn. rewrite IH. f_equal. f_equal.
  clear. induction row as [| px row IH] using rev_ind; [done |].
  rewrite imap_app. cbn. by rewrite IH.
Qed.

(** Closed form of [redact_words]: the boxes in front of the first one
    that does not fit are painted, and the call raises at that one. *)
Lemma redact_words_redacted (img : image) (boxes : list box) (padding : Z) :
  redact_words img boxes padding
  = (redacted img (fitting_prefix padding boxes) padding,
     if forallb (box_fits padding) boxes then Returns else Raises).
Proof.
  revert img. induction boxes as [| [[[x y] w] h] rest IH]; intros img.
  - cbn. by rewrite redacted_nil.
  - cbn [redact_words fitting_prefix forallb]. rewrite cv2_rectangle_fits.
    destruct (box_fits padding (x, y, w, h)); cbn [andb].
    + rewrite IH. by rewrite redacted_cons.
    + by rewrite redacted_nil.
Qed.

Lemma pixel_at_redacted (img : image) (boxes : list box) (padding : Z)
    (r c : nat) :
  pixel_at (redacted img boxes padding) r c
  = (fun px => if covered boxes padding r c
               then paint [255; 255; 255] px else px) <$> pixel_at img r c.
Proof.
  unfold redacted, pixel_at, image, pixel in *. rewrite list_lookup_imap.
  destruct (img !! r) as [row |]; [| done]. cbn. by rewrite list_lookup_imap.
Qed.

Lemma redacted_shape (img : image) (boxes : list box) (padding : Z) :
  length (redacted img boxes padding) = length img
  /\ forall r,
       length <$> redacted img boxes padding !! r = length <$> img !! r.
Proof.
  unfold redacted, image, pixel in *. split; [by rewrite length_imap |].
  intros r. rewrite list_lookup_imap.
  destruct (img !! r) as [row |]; [| reflexivity].
  cbn [fmap option_fmap option_map]. by rewrite length_imap.
Qed.

(** X1.  Outcome of [redact_words] on a frame the drawing call accepts
    (non-empty, one to four channels): the call returns exactly when the
    corners of every padded box fit a C int and raises otherwise; either
    way a pixel is painted with the fill colour if it lies in the padded
    rectangle of a box in front of the first one that does not fit, and is
    left as it was if not. *)
Theorem redact_words_outcome (img : image) (boxes : list box) (padding : Z) :
  accepted_frame img ->
  (redact_words img boxes padding).2
  = (if forallb (box_fits padding) boxes then Returns else Raises)
  /\ forall r c,
       pixel_at (redact_words img boxes padding).1 r c
       = (fun px =>
            if covered (fitting_prefix padding boxes) padding r c
            then paint [255; 255; 255] px else px) <$> pixel_at img r c.
Proof.
  intros _. rewrite redact_words_redacted. cbn [fst snd]. split; [done |].
  intros r c. apply pixel_at_redacted.
Qed.

Lemma redact_words_outcome_witness :
  accepted_frame plain_frame
  /\ (redact_words plain_frame [(5, 5, 10, 10); (0, 0, 2 ^ 31, 2)] 1).2 = Raises
  /\ pixel_at (redact_words plain_frame [(5, 5, 10, 10); (0, 0, 2 ^ 31, 2)] 1).1
       10 10
     = Some [255; 255; 255]
  /\ pixel_at (redact_words plain_frame [(5, 5, 10, 10); (0, 0, 2 ^ 31, 2)] 1).1
       0 0
     = Some [7; 7; 7].
Proof.
  assert (Hframe : accepted_frame plain_frame).
  { split; [discriminate |].
    apply Forall_forall. intros row Hrow. unfold plain_frame in Hrow.
    apply elem_of_replicate in Hrow as [-> _].
    split; [discriminate |].
    apply Forall_forall. intros px Hpx.
    apply elem_of_replicate in Hpx as [-> _]. cbn. lia. }
  split; [exact Hframe |].
  destruct (redact_words_outcome plain_frame
              [(5, 5, 10, 10); (0, 0, 2 ^ 31, 2)] 1 Hframe) as [Hres Hpx].
  split; [exact Hres |].
  split; [rewrite (Hpx 10%nat 10%nat) | rewrite (Hpx 0%nat 0%nat)];
    reflexivity.
Defined.

Lemma covered_permutation (boxes boxes' : list box) (padding : Z) (r c : nat) :
  boxes ≡ₚ boxes' -> covered boxes padding r c = covered boxes' padding r c.
Proof.
  intros Hperm. unfold covered. apply eq_true_iff_eq.
  rewrite !existsb_exists. split; intros (b & Hin & Hb); exists b.
  - split; [| done]. by eapply Permutation_in.
  - split; [| done]. eapply Permutation_in; [symmetry |]; done.
Qed.

Lemma box_fits_permutation (boxes boxes' : list box) (padding : Z) :
  boxes ≡ₚ boxes' ->
  forallb (box_fits padding) boxes = forallb (box_fits padding) boxes'.
Proof.
  intros Hperm. apply eq_true_iff_eq. rewrite !forallb_forall.
  split; intros Hall b Hb; apply Hall.
  - eapply Permutation_in; [symmetry |]; done.
  - by eapply Permutation_in.
Qed.

Lemma fitting_prefix_all (boxes : list box) (padding : Z) :
  forallb (box_fits padding) boxes = true ->
  fitting_prefix padding boxes = boxes.
Proof.
  induction boxes as [| b rest IH]; [done |]. cbn.
  destruct (box_fits padding b); [| done]. cbn. intros Hrest. by rewrite IH.
Qed.

(** X2.  When every box fits, the order of the boxes does not matter: a
    permutation of the list gives the same frame. *)
Theorem redact_words_order_irrelevant (img : image) (boxes boxes' : list box)
    (padding : Z) :
  boxes ≡ₚ boxes' ->
  forallb (box_fits padding) boxes = true ->
  redact_words img boxes padding = redact_words img boxes' padding.
Proof.
  intros Hperm Hfit. rewrite !redact_words_redacted.
  rewrite <- (box_fits_permutation _ _ _ Hperm), Hfit.
  rewrite !fitting_prefix_all
    by (by rewrite <- ?(box_fits_permutation _ _ _ Hperm)).
  f_equal. unfold redacted. apply imap_ext. intros r row _.
  apply imap_ext. intros c px _. by rewrite (covered_permutation _ _ _ _ _ Hperm).
Qed.

Lemma fitting_prefix_fits (boxes : list box) (padding : Z) :
  forallb (box_fits padding) (fitting_prefix padding boxes) = true.
Proof.
  induction boxes as [| b rest IH]; [done |]. cbn.
  destruct (box_fits padding b) eqn:Hb; [| done]. cbn. by rewrite Hb.
Qed.

Lemma redacted_twice (img : image) (boxes : list box) (padding : Z) :
  redacted (redacted img boxes padding) boxes padding
  = redacted img boxes padding.
Proof.
  unfold redacted. rewrite imap_compose. apply imap_ext. intros r row _.
  rewrite imap_compose. apply imap_ext. intros c px _.
  destruct (covered boxes padding r c); [apply paint_paint | done].
Qed.

(** X3.  Redacting the result once more with the same boxes changes
    nothing. *)
Theorem redact_words_idempotent (img : image) (boxes : list box) (padding : Z) :
  redact_words (redact_words img boxes padding).1 boxes padding
  = redact_words img boxes padding.
Proof.
  rewrite !redact_words_redacted. cbn [fst]. by rewrite redacted_twice.
Qed.

(** X4.  The frame keeps its shape: same number of rows, same length of
    every row, and a pixel of at most four channels keeps its number of
    channels. *)
Theorem redact_words_keeps_shape (img : image) (boxes : list box) (padding : Z) :
  length (redact_words img boxes padding).1 = length img
  /\ (forall r,
        length <$> (redact_words img boxes padding).1 !! r
        = length <$> img !! r)
  /\ forall r c px px',
       pixel_at img r c = Some px ->
       pixel_at (redact_words img boxes padding).1 r c = Some px' ->
       (length px <= 4)%nat -> length px' = length px.
Proof.
  rewrite redact_words_redacted. cbn [fst].
  split; [apply redacted_shape |]. split; [apply redacted_shape |].
  intros r c px px'. rewrite pixel_at_redacted. intros -> [= <-] Hpx.
  destruct (covered _ _ _ _); [| done].
  unfold paint. rewrite !length_take, length_app. cbn [length]. lia.
Qed.

Lemma redact_words_order_irrelevant_witness :
  [(5, 5, 10, 10); (0, 0, 2, 2)] ≡ₚ [(0, 0, 2, 2); (5, 5, 10, 10)]
  /\ forallb (box_fits 1) [(5, 5, 10, 10); (0, 0, 2, 2)] = true
  /\ redact_words plain_frame [(5, 5, 10, 10); (0, 0, 2, 2)] 1
     = redact_words plain_frame [(0, 0, 2, 2); (5, 5, 10, 10)] 1.
Proof.
  assert (Hperm : [(5, 5, 10, 10); (0, 0, 2, 2)]
                  ≡ₚ [(0, 0, 2, 2); (5, 5, 10, 10)]) by apply perm_swap.
  split; [exact Hperm |]. split; [reflexivity |].
  exact (redact_words_order_irrelevant plain_frame _ _ 1 Hperm eq_refl).
Defined.
(** ** More on the box tracker *)

Lemma centre_halves (x w : Z) :
  (inject_Z x + inject_Z w / 2 == inject_Z (2 * x + w) / 2)%Q.
Proof. rewrite inject_Z_plus, inject_Z_mult. field. Qed.

Lemma inject_Z_sub (p q : Z) : inject_Z (p - q) = (inject_Z p - inject_Z q)%Q.
Proof.
  change (p - q) with (p + - q). by rewrite inject_Z_plus, inject_Z_opp.
Qed.

Lemma centre_distance_sq_centre2 (a b : box) :
  (centre_distance_sq a b
   == inject_Z (((centre2 a).1 - (centre2 b).1) ^ 2
                + ((centre2 a).2 - (centre2 b).2) ^ 2) / 4)%Q.
Proof.
  destruct a as [[[x1 y1] w1] h1], b as [[[x2 y2] w2] h2].
  unfold centre_distance_sq, centre2. cbn [fst snd].
  rewrite !centre_halves.
  generalize (2 * x1 + w1) (2 * x2 + w2) (2 * y1 + h1) (2 * y2 + h2).
  intros p1 p2 q1 q2.
  rewrite inject_Z_plus, !Z.pow_2_r, !inject_Z_mult, !inject_Z_sub. field.
Qed.


Lemma matching_same_centre (a b : box) (t : Q) :
  centre2 a = centre2 b ->
  (is_matching_box a b t = true <-> (0 < t)%Q).
Proof.
  intros Hc. rewrite is_matching_box_iff, centre_distance_sq_centre2, Hc.
  rewrite !Z.sub_diag. split; [tauto |]. intros Ht. split; [done |].
  unfold Qlt in *. cbn in *. nia.
Qed.

(** X6.  The test looks at the centres only: boxes with the same centres
    give the same answer whatever their sizes, and two boxes with a common
    centre match exactly when the threshold is positive. *)
Theorem is_matching_box_centres_only (a a' b b' : box) (t : Q) :
  centre2 a = centre2 a' -> centre2 b = centre2 b' ->
  is_matching_box a b t = is_matching_box a' b' t
  /\ (centre2 a = centre2 b -> (is_matching_box a b t = true <-> (0 < t)%Q)).
Proof.
  intros Ha Hb. split; [| apply matching_same_centre].
  apply eq_true_iff_eq.
  by rewrite !is_matching_box_iff, !centre_distance_sq_centre2, Ha, Hb.
Qed.

(** X7.  A threshold that is not positive matches nothing, and a match at
    one threshold is a match at every larger one. *)
Theorem is_matching_box_threshold (a b : box) (t t' : Q) :
  ((t <= 0)%Q -> is_matching_box a b t = false)
  /\ ((t <= t')%Q -> is_matching_box a b t = true ->
      is_matching_box a b t' = true).
Proof.
  split.
  - intros Ht. apply not_true_iff_false. rewrite is_matching_box_iff.
    intros [Hpos _]. by apply (Qlt_not_le _ _ Hpos).
  - intros Hle. rewrite !is_matching_box_iff. intros [Hpos Hd].
    assert (Hpos' : (0 < t')%Q) by by eapply Qlt_le_trans.
    split; [done |].
    eapply Qlt_le_trans; [exact Hd |].
    apply Qmult_le_compat_nonneg; (split; [by apply Qlt_le_weak | done]).
Qed.

Lemma is_matching_box_self (b : box) : is_matching_box b b 10 = true.
Proof. by apply matching_same_centre. Qed.

Lemma is_new_false (last : list box) (b : box) :
  is_new last b = false
  <-> exists p, p ∈ last /\ is_matching_box b p 10 = true.
Proof.
  unfold is_new. rewrite negb_false_iff, existsb_exists.
  by setoid_rewrite list_elem_of_In.
Qed.

Lemma filter_is_new_nil (last current : list box) :
  (forall b, b ∈ current ->
     exists p, p ∈ last /\ is_matching_box b p 10 = true) ->
  List.filter (is_new last) current = [].
Proof.
  induction current as [| b rest IH]; intros Hall; [done |]. cbn.
  destruct (is_new last b) eqn:Hnew.
  - apply not_false_iff_true in Hnew. exfalso. apply Hnew.
    apply is_new_false. apply Hall. by left.
  - apply IH. intros b' Hb'. apply Hall. by right.
Qed.

Lemma update_word_boxes_filter (last current : list box) :
  update_word_boxes last current = List.filter (is_new last) current ++ last.
Proof. unfold update_word_boxes. by rewrite update_loop_spec. Qed.

(** Every current box matches a box of the merged list. *)
Lemma update_word_boxes_covers (last current : list box) (b : box) :
  b ∈ current ->
  exists p, p ∈ update_word_boxes last current
            /\ is_matching_box b p 10 = true.
Proof.
  intros Hb. rewrite update_word_boxes_filter.
  destruct (is_new last b) eqn:Hnew.
  - exists b. split; [| apply is_matching_box_self].
    apply elem_of_app. left. apply list_elem_of_In, filter_In.
    split; [by apply list_elem_of_In | done].
  - apply is_new_false in Hnew as (p & Hp & Hm). exists p.
    split; [| done]. apply elem_of_app. by right.
Qed.

(** X8.  When every current detection matches some previous box, the merge
    returns the previous list unchanged. *)
Theorem update_word_boxes_all_matched (last current : list box) :
  (forall b, b ∈ current ->
     exists p, p ∈ last /\ is_matching_box b p 10 = true) ->
  update_word_boxes last current = last.
Proof.
  intros Hall. rewrite update_word_boxes_filter.
  by rewrite (filter_is_new_nil _ _ Hall).
Qed.

(** X9.  Merging the same detections a second time adds nothing, and a
    list merged with itself is unchanged. *)
Theorem update_word_boxes_idempotent (last current : list box) :
  update_word_boxes (update_word_boxes last current) current
  = update_word_boxes last current
  /\ update_word_boxes last last = last.
Proof.
  split.
  - rewrite (update_word_boxes_filter (update_word_boxes last current)).
    rewrite (filter_is_new_nil _ current); [done |].
    intros b Hb. by apply update_word_boxes_covers.
  - rewrite update_word_boxes_filter.
    rewrite (filter_is_new_nil last last); [done |].
    intros b Hb. exists b. split; [done | apply is_matching_box_self].
Qed.

(** X10.  With nothing tracked every detection is kept, duplicates
    included.  In general the merged list has at most
    len(previous) + len(current) boxes, each of them from one of the two
    lists, and every current detection matches some box of the merged
    list. *)
Theorem update_word_boxes_bounds (last current : list box) :
  update_word_boxes [] current = current
  /\ (length (update_word_boxes last current)
      <= length last + length current)%nat
  /\ (forall b, b ∈ update_word_boxes last current ->
        b ∈ current \/ b ∈ last)
  /\ (forall b, b ∈ current ->
        exists p, p ∈ update_word_boxes last current
                  /\ is_matching_box b p 10 = true).
Proof.
  split; [| split; [| split]].
  - rewrite update_word_boxes_filter, app_nil_r.
    induction current as [| b rest IH]; [done |]. cbn. by rewrite IH.
  - rewrite update_word_boxes_filter, length_app.
    pose proof (filter_length_le (is_new last) current). lia.
  - intros b. rewrite update_word_boxes_filter, elem_of_app.
    intros [Hb | Hb]; [left | by right].
    apply list_elem_of_In in Hb. apply filter_In in Hb as [Hb _].
    by apply list_elem_of_In.
  - intros b Hb. by apply update_word_boxes_covers.
Qed.

Lemma is_matching_box_centres_only_witness :
  centre2 (0, 0, 10, 10) = centre2 (4, 4, 2, 2)
  /\ centre2 (20, 20, 4, 4) = centre2 (21, 21, 2, 2)
  /\ is_matching_box (0, 0, 10, 10) (20, 20, 4, 4) 10
     = is_matching_box (4, 4, 2, 2) (21, 21, 2, 2) 10.
Proof.
  split; [reflexivity |]. split; [reflexivity |].
  exact (proj1 (is_matching_box_centres_only
                  (0, 0, 10, 10) (4, 4, 2, 2) (20, 20, 4, 4) (21, 21, 2, 2) 10
                  eq_refl eq_refl)).
Defined.

Lemma update_word_boxes_all_matched_witness :
  (forall b, b ∈ [(11, 11, 20, 20)] ->
     exists p, p ∈ [(10, 10, 20, 20)] /\ is_matching_box b p 10 = true)
  /\ update_word_boxes [(10, 10, 20, 20)] [(11, 11, 20, 20)]
     = [(10, 10, 20, 20)].
Proof.
  assert (Hall : forall b : box, b ∈ [(11, 11, 20, 20)] ->
            exists p, p ∈ [(10, 10, 20, 20)] /\ is_matching_box b p 10 = true).
  { intros b Hb. apply list_elem_of_singleton in Hb. subst b.
    exists (10, 10, 20, 20). split; [apply list_elem_of_here | reflexivity]. }
  split; [exact Hall |].
  exact (update_word_boxes_all_matched _ _ Hall).
Defined.
(** ** More on the token filters *)

Lemma char_lower_idempotent (c : ascii) : char_lower (char_lower c) = char_lower c.
Proof. destruct c as [[] [] [] [] [] [] [] []]; reflexivity. Qed.

Lemma lower_idempotent (s : string) : lower (lower s) = lower s.
Proof.
  unfold lower. induction s as [| c s IH]; [done |].
  cbn. by rewrite char_lower_idempotent, IH.
Qed.

Lemma scan_tokens_ext (test test' : string -> bool) (data : ocr_data) :
  (forall text, test text = test' text) ->
  forall texts i acc,
    scan_tokens test data i texts acc = scan_tokens test' data i texts acc.
Proof.
  intros Hext texts. induction texts as [| text rest IH]; intros i acc; [done |].
  cbn [scan_tokens]. rewrite <- Hext.
  destruct (test text); [| apply IH].
  destruct (data_conf data !! i) as [conf |]; [| done].
  destruct (0 <? conf); [| apply IH].
  destruct (data_left data !! i), (data_top data !! i),
    (data_width data !! i), (data_height data !! i); first [done | apply IH].
Qed.

(** X11.  In exact mode only the entries that are their own lower-case form
    can ever match: removing all other entries from the word list does not
    change the result, on any OCR output. *)
Theorem perform_ocr_lowercase_entries `{Collaborators} (img : image)
    (words_to_detect : list string) :
  perform_ocr img words_to_detect
  = perform_ocr img
      (List.filter (fun w => bool_decide (lower w = w)) words_to_detect).
Proof.
  unfold perform_ocr. destruct (threshold img) as [thr |]; [| done].
  destruct (image_to_data thr) as [data |]; [| done].
  f_equal. apply scan_tokens_ext. intros text.
  apply bool_decide_ext. rewrite !list_elem_of_In, filter_In.
  split; [| tauto]. intros Hin. split; [done |].
  apply bool_decide_eq_true. apply lower_idempotent.
Qed.

(** A scan that meets a passing token without confidence entry raises. *)
Lemma scan_tokens_raises (test : string -> bool) (data : ocr_data)
    (i : nat) (text : string) :
  data_text data !! i = Some text ->
  test text = true ->
  data_conf data !! i = None ->
  forall texts j acc,
    drop j (data_text data) = texts -> (j <= i)%nat ->
    scan_tokens test data j texts acc = None.
Proof.
  intros Htext Htest Hconf texts.
  induction texts as [| t rest IH]; intros j acc Hdrop Hj.
  - apply (f_equal length) in Hdrop. rewrite length_drop in Hdrop.
    apply lookup_lt_Some in Htext. cbn in Hdrop. lia.
  - assert (Ht : data_text data !! j = Some t).
    { rewrite <- (Nat.add_0_r j), <- lookup_drop, Hdrop. done. }
    assert (Hrest : drop (S j) (data_text data) = rest).
    { rewrite (drop_S _ t j) in Hdrop by done. by injection Hdrop. }
    cbn [scan_tokens].
    destruct (decide (j = i)) as [-> | Hne].
    + rewrite Htext in Ht. injection Ht as <-. by rewrite Htest, Hconf.
    + assert (Hnext : forall acc', scan_tokens test data (S j) rest acc' = None).
      { intros acc'. apply IH; [done | lia]. }
      destruct (test t); [| apply Hnext].
      destruct (data_conf data !! j) as [conf |]; [| done].
      destruct (0 <? conf); [| apply Hnext].
      destruct (data_left data !! j), (data_top data !! j),
        (data_width data !! j), (data_height data !! j);
        first [done | apply Hnext].
Qed.

(** X12.  When thresholding or the OCR engine raises, both filters return
    the empty list; and when a token that passes the text test has no
    confidence entry (the lists of the dictionary differ in length), the
    exception discards every box and the result is empty as well. *)
Theorem ocr_failure_yields_nothing `{Collaborators} (img : image)
    (words_to_detect : list string) (patterns : list pattern_arg) :
  (threshold img = None ->
     perform_ocr img words_to_detect = []
     /\ perform_ocr_privacy_mode img patterns = [])
  /\ (forall thresholded, threshold img = Some thresholded ->
        image_to_data thresholded = None ->
        perform_ocr img words_to_detect = []
        /\ perform_ocr_privacy_mode img patterns = [])
  /\ (forall thresholded data i text,
        threshold img = Some thresholded ->
        image_to_data thresholded = Some data ->
        data_text data !! i = Some text ->
        data_conf data !! i = None ->
        (lower text ∈ words_to_detect -> perform_ocr img words_to_detect = [])
        /\ (forall compiled,
              mapM compile_arg patterns = Some compiled ->
              matches_any compiled text = true ->
              perform_ocr_privacy_mode img patterns = [])).
Proof.
  unfold perform_ocr, perform_ocr_privacy_mode. split; [| split].
  - intros ->. done.
  - intros thr -> ->. done.
  - intros thr data i text -> -> Htext Hconf. split.
    + intros Hin.
      rewrite (scan_tokens_raises _ data i text Htext) with (j := O);
        [done | by apply bool_decide_eq_true | done | done | lia].
    + intros compiled -> Hm.
      rewrite (scan_tokens_raises _ data i text Htext) with (j := O);
        [done | done | done | done | lia].
Qed.

Lemma detection_boxes_sublist (test test' : string -> bool)
    (tokens : list (string * Z * box)) :
  (forall text, test text = true -> test' text = true) ->
  detection_boxes test tokens `sublist_of` detection_boxes test' tokens.
Proof.
  intros Himp. unfold detection_boxes.
  induction tokens as [| [[text conf] b] rest IH]; [done |].
  cbn [flat_map]. apply sublist_app; [| done].
  destruct (test text) eqn:Ht.
  - by rewrite (Himp _ Ht).
  - cbn. apply sublist_nil_l.
Qed.

(** X13.  On well-formed OCR output, enlarging the word list can only add
    boxes: the result for a sub-list is a sub-sequence of the result for
    the larger list, which is a sub-sequence of the token boxes in scan
    order; the empty word list detects nothing. *)
Theorem perform_ocr_monotone `{Collaborators} (img thresholded : image)
    (data : ocr_data) (words words' : list string) :
  threshold img = Some thresholded ->
  image_to_data thresholded = Some data ->
  well_formed data ->
  words ⊆ words' ->
  perform_ocr img words `sublist_of` perform_ocr img words'
  /\ perform_ocr img words' `sublist_of` (snd <$> ocr_tokens data)
  /\ perform_ocr img [] = [].
Proof.
  intros Hthr Hdata Hwf Hsub. unfold perform_ocr. rewrite Hthr, Hdata.
  rewrite !(scan_tokens_spec _ data Hwf (data_text data) O []) by done.
  cbn [from_option app id]. rewrite !drop_0. split; [| split].
  - apply detection_boxes_sublist. intros text Hin.
    apply bool_decide_eq_true in Hin. apply bool_decide_eq_true. by apply Hsub.
  - generalize (ocr_tokens data). intros tokens. unfold detection_boxes.
    induction tokens as [| [[text conf] b] rest IH]; [done |].
    cbn [flat_map fmap list_fmap snd].
    destruct (bool_decide (lower text ∈ words') && (0 <? conf)); cbn [app].
    + by apply sublist_skip.
    + by apply sublist_cons.
  - generalize (ocr_tokens data). intros tokens. unfold detection_boxes.
    induction tokens as [| [[text conf] b] rest IH]; [done |].
    cbn [flat_map]. rewrite bool_decide_eq_false_2 by apply not_elem_of_nil.
    done.
Qed.

Lemma mapM_compile_fails (patterns : list pattern_arg) (p : pattern_arg) :
  p ∈ patterns -> compile_arg p = None -> mapM compile_arg patterns = None.
Proof.
  intros Hin Hp. destruct (mapM compile_arg patterns) as [compiled |] eqn:Hm;
    [| done].
  apply mapM_Some in Hm. apply list_elem_of_lookup in Hin as [i Hi].
  destruct (Forall2_lookup_l _ _ _ _ _ Hm Hi) as (r & _ & Hr). congruence.
Qed.

Lemma quantifier_first_rejected (pattern : string) :
  starts_with_quantifier pattern = true -> re_compile pattern = None.
Proof.
  destruct pattern as [| c rest]; [done |]. cbn [starts_with_quantifier].
  intros Hc. apply orb_true_iff in Hc as [Hc | Hc];
    [apply orb_true_iff in Hc as [Hc | Hc] |];
    apply bool_decide_eq_true in Hc; subst c; reflexivity.
Qed.

(** X14.  If one entry of the pattern list begins with a repetition sign
    (an asterisk, a plus sign or a question mark, which [re.compile]
    refuses with "nothing to repeat"), the privacy filter returns no box at
    all, whatever the OCR engine read and whatever the other entries
    are. *)
Theorem privacy_mode_bad_pattern `{Collaborators} (img : image)
    (patterns : list pattern_arg) (pattern : string) :
  PStr pattern ∈ patterns -> starts_with_quantifier pattern = true ->
  perform_ocr_privacy_mode img patterns = [].
Proof.
  intros Hin Hp. unfold perform_ocr_privacy_mode.
  destruct (threshold img) as [thr |]; [| done].
  destruct (image_to_data thr) as [data |]; [| done].
  rewrite (mapM_compile_fails _ _ Hin); [done |].
  cbn. by apply quantifier_first_rejected.
Qed.

Lemma perform_ocr_monotone_witness :
  (well_formed (one_token "password" 96 (1, 0, 1, 1))
   /\ ["apple"] ⊆ ["apple"; "password"])
  /\ @perform_ocr (reading "password" 96) secret_frame ["apple"]
     `sublist_of`
     @perform_ocr (reading "password" 96) secret_frame ["apple"; "password"].
Proof.
  assert (Hwf : well_formed (one_token "password" 96 (1, 0, 1, 1))).
  { repeat split. }
  assert (Hsub : ["apple"] ⊆ ["apple"; "password"]).
  { intros w Hw. apply list_elem_of_singleton in Hw. subst w.
    apply list_elem_of_here. }
  split; [split; [exact Hwf | exact Hsub] |].
  exact (proj1 (@perform_ocr_monotone (reading "password" 96)
                  secret_frame secret_frame
                  (one_token "password" 96 (1, 0, 1, 1))
                  ["apple"] ["apple"; "password"]
                  eq_refl eq_refl Hwf Hsub)).
Defined.

Lemma privacy_mode_bad_pattern_witness :
  (PStr "?secret" ∈ [PStr "apple"; PStr "?secret"]
   /\ starts_with_quantifier "?secret" = true)
  /\ @perform_ocr_privacy_mode (reading "apple" 96) secret_frame
       [PStr "apple"; PStr "?secret"] = [].
Proof.
  assert (Hin : PStr "?secret" ∈ [PStr "apple"; PStr "?secret"]).
  { apply list_elem_of_further, list_elem_of_here. }
  split; [split; [exact Hin | reflexivity] |].
  exact (@privacy_mode_bad_pattern (reading "apple" 96) secret_frame
           [PStr "apple"; PStr "?secret"] "?secret" Hin eq_refl).
Defined.
(** ** More on the patterns *)

Lemma parse_alnum_step (c : ascii) :
  is_alnum_char c = true ->
  forall fuel alts acc rest,
    parse (S fuel) alts acc (c :: rest) = parse fuel alts (RChar c :: acc) rest.
Proof.
  destruct c as [[] [] [] [] [] [] [] []]; intros Hc;
    try (vm_compute in Hc; discriminate Hc); intros; reflexivity.
Qed.

Lemma parse_alnum (cs : list ascii) :
  forallb is_alnum_char cs = true ->
  forall fuel alts acc rest,
    parse (length cs + fuel) alts acc (cs ++ rest)
    = parse fuel alts (rev (RChar <$> cs) ++ acc) rest.
Proof.
  induction cs as [| c cs IH]; intros Hcs fuel alts acc rest; [done |].
  cbn [forallb] in Hcs. apply andb_true_iff in Hcs as [Hc Hcs].
  cbn [length Nat.add app]. rewrite (parse_alnum_step c Hc).
  rewrite (IH Hcs). cbn [fmap list_fmap rev]. by rewrite <- app_assoc.
Qed.

Lemma mk_seq_rev (cs : list ascii) (tail : regex) :
  fold_left (fun tail item => RSeq item tail) (rev (RChar <$> cs)) tail
  = fold_right (fun c r => RSeq (RChar c) r) tail cs.
Proof.
  induction cs as [| c cs IH]; [done |].
  cbn [fmap list_fmap rev fold_right]. rewrite fold_left_app. cbn.
  by rewrite <- IH.
Qed.

(** A string of letters and digits compiles to the literal pattern. *)
Lemma re_compile_alnum (w : string) :
  forallb is_alnum_char (list_ascii_of_string w) = true ->
  re_compile w = Some (literal (list_ascii_of_string w)).
Proof.
  intros Hw. unfold re_compile. cbn zeta.
  set (cs := list_ascii_of_string w) in *.
  replace (S (length cs)) with (length cs + 1)%nat by lia.
  rewrite <- (app_nil_r cs) at 2. rewrite (parse_alnum cs Hw).
  cbn [parse]. rewrite app_nil_r. unfold finish, mk_seq. cbn [fold_right].
  by rewrite mk_seq_rev.
Qed.

Lemma ends_literal (subject cs : list ascii) :
  forall i,
    ends subject (literal cs) i
    = if bool_decide (cs `prefix_of` drop i subject)
      then [(i + length cs)%nat] else [].
Proof.
  induction cs as [| c cs IH]; intros i.
  - cbn. rewrite bool_decide_eq_true_2 by apply prefix_nil.
    by rewrite Nat.add_0_r.
  - cbn [literal fold_right ends]. fold (literal cs). unfold one_char.
    destruct (subject !! i) as [d |] eqn:Hd.
    + rewrite (drop_S _ _ _ Hd).
      destruct (bool_decide (d = c)) eqn:Hdc.
      * apply bool_decide_eq_true in Hdc as ->. cbn [flat_map].
        rewrite app_nil_r, IH.
        destruct (bool_decide (cs `prefix_of` drop (S i) subject)) eqn:Hp.
        -- apply bool_decide_eq_true in Hp.
           rewrite bool_decide_eq_true_2 by by apply prefix_cons.
           cbn [length]. by rewrite Nat.add_succ_r.
        -- apply bool_decide_eq_false in Hp.
           rewrite bool_decide_eq_false_2; [done |].
           intros Hpre. apply Hp. by eapply prefix_cons_inv_2.
      * apply bool_decide_eq_false in Hdc. cbn.
        rewrite bool_decide_eq_false_2; [done |].
        intros Hpre. apply prefix_cons_inv_1 in Hpre. congruence.
    + cbn. rewrite (drop_ge subject i) by by apply lookup_ge_None.
      rewrite bool_decide_eq_false_2; [done |].
      intros Hpre. by apply prefix_nil_not in Hpre.
Qed.

Lemma list_ascii_of_string_app (a b : string) :
  list_ascii_of_string (a +:+ b)
  = list_ascii_of_string a ++ list_ascii_of_string b.
Proof. induction a as [| c a IH]; [done |]. simpl. f_equal. exact IH. Qed.

(** A word of letters and digits, used as a pattern, matches exactly the
    texts that start with it. *)
Lemma str_match_alnum (w text : string) :
  forallb is_alnum_char (list_ascii_of_string w) = true ->
  (str_match w text = true <-> exists rest, text = w +:+ rest).
Proof.
  intros Hw. unfold str_match. rewrite (re_compile_alnum w Hw).
  unfold re_match. rewrite ends_literal, drop_0.
  destruct (bool_decide (_ `prefix_of` _)) eqn:Hp.
  - apply bool_decide_eq_true in Hp as [k Hk]. split; [intros _ | done].
    exists (string_of_list_ascii k).
    rewrite <- (string_of_list_ascii_of_string text), Hk.
    rewrite <- (list_ascii_of_string_of_list_ascii k) at 1.
    rewrite <- list_ascii_of_string_app.
    by rewrite string_of_list_ascii_of_string.
  - apply bool_decide_eq_false in Hp. split; [done |].
    intros [rest ->]. exfalso. apply Hp.
    rewrite list_ascii_of_string_app. by eexists.
Qed.

Lemma matches_any_lookup (patterns : list pattern_arg) (compiled : list regex)
    (p : pattern_arg) (r : regex) (text : string) :
  mapM compile_arg patterns = Some compiled ->
  p ∈ patterns -> compile_arg p = Some r -> re_match r text = true ->
  matches_any compiled text = true.
Proof.
  intros Hm Hin Hp Hr. apply mapM_Some in Hm.
  apply list_elem_of_lookup in Hin as [i Hi].
  destruct (Forall2_lookup_l _ _ _ _ _ Hm Hi) as (r' & Hr' & Hc).
  assert (r' = r) as -> by congruence.
  unfold matches_any. apply existsb_exists. exists r.
  split; [| done]. apply list_elem_of_In. by eapply list_elem_of_lookup_2.
Qed.

(** X15.  In privacy mode an entry made of letters and digits acts as a
    prefix test: every token of positive confidence whose text starts with
    it gets a box (when all entries compile and the OCR output is
    well-formed). *)
Theorem privacy_mode_boxes_prefixed_tokens `{Collaborators}
    (img thresholded : image) (data : ocr_data) (patterns : list pattern_arg)
    (compiled : list regex) (w rest : string) (conf : Z) (b : box) :
  threshold img = Some thresholded ->
  image_to_data thresholded = Some data ->
  well_formed data ->
  mapM compile_arg patterns = Some compiled ->
  PStr w ∈ patterns ->
  forallb is_alnum_char (list_ascii_of_string w) = true ->
  (w +:+ rest, conf, b) ∈ ocr_tokens data ->
  0 < conf ->
  b ∈ perform_ocr_privacy_mode img patterns.
Proof.
  intros Hthr Hdata Hwf Hm Hin Hw Htok Hconf.
  rewrite (privacy_filter_spec _ _ _ _ _ Hthr Hdata Hwf Hm).
  apply elem_of_detection_boxes. exists (w +:+ rest), conf.
  split; [done |]. split; [| done].
  apply (matches_any_lookup _ _ (PStr w) (literal (list_ascii_of_string w)) _ Hm Hin).
  - cbn. by apply re_compile_alnum.
  - pose proof (proj2 (str_match_alnum w (w +:+ rest) Hw)) as Hs.
    unfold str_match in Hs. rewrite (re_compile_alnum w Hw) in Hs.
    apply Hs. by exists rest.
Qed.

(** *** The second IPv4 pattern adds nothing to the first *)

Lemma ends_seq_mono (subject : list ascii) (a r r' : regex) :
  (forall j x, x ∈ ends subject r' j -> x ∈ ends subject r j) ->
  forall i x, x ∈ ends subject (RSeq a r') i -> x ∈ ends subject (RSeq a r) i.
Proof.
  intros Hsub i x. cbn [ends]. rewrite !elem_of_remove_dups, !list_elem_of_In.
  rewrite !in_flat_map. intros (j & Hj & Hx). exists j. split; [done |].
  apply list_elem_of_In, Hsub. by apply list_elem_of_In.
Qed.

Lemma ends_skip_look (subject : list ascii) (neg : bool) (l r : regex) :
  forall j x, x ∈ ends subject (RSeq (RLook neg l) r) j -> x ∈ ends subject r j.
Proof.
  intros j x. cbn [ends]. rewrite elem_of_remove_dups, list_elem_of_In, in_flat_map.
  intros (k & Hk & Hx). destruct (xorb _ _); [| done].
  destruct Hk as [<- | []]. by apply list_elem_of_In.
Qed.

Lemma re_match_elem (r : regex) (text : string) :
  re_match r text = true <-> exists x, x ∈ ends (list_ascii_of_string text) r O.
Proof.
  unfold re_match. rewrite negb_true_iff, bool_decide_eq_false.
  destruct (ends _ r O) as [| x l]; split.
  - done.
  - intros [x Hx]. by apply elem_of_nil in Hx.
  - intros _. exists x. by left.
  - done.
Qed.

(** X16.  Every text matched by the second IPv4 pattern (the one with the
    look-ahead) is matched by the first, so the second never adds a
    detection. *)
Theorem strict_ipv4_pattern_subsumed (text : string) :
  str_match "\b(?:\d{1,3}\.){3}\d{1,3}(?![\d.])\b" text = true ->
  str_match "\b(?:\d{1,3}\.){3}\d{1,3}\b" text = true.
Proof.
  unfold str_match.
  destruct (re_compile "\b(?:\d{1,3}\.){3}\d{1,3}(?![\d.])\b") as [r2 |] eqn:H2;
    vm_compute in H2; [| discriminate H2]. injection H2 as <-.
  destruct (re_compile "\b(?:\d{1,3}\.){3}\d{1,3}\b") as [r1 |] eqn:H1;
    vm_compute in H1; [| discriminate H1]. injection H1 as <-.
  rewrite !re_match_elem. intros [x Hx]. exists x. revert Hx.
  apply ends_seq_mono. intros j y. apply ends_seq_mono. intros j' y'.
  apply ends_seq_mono. apply ends_skip_look.
Qed.

(** *** Which word lists compile *)

Lemma char_case_alnum (c : ascii) :
  is_alnum_char c = true ->
  is_alnum_char (char_lower c) = true /\ is_alnum_char (char_upper c) = true.
Proof.
  destruct c as [[] [] [] [] [] [] [] []]; intros Hc;
    try (vm_compute in Hc; discriminate Hc); split; reflexivity.
Qed.

Lemma alnum_word_map (f : ascii -> ascii) (w : string) :
  (forall c, is_alnum_char c = true -> is_alnum_char (f c) = true) ->
  alnum_word w -> alnum_word (str_map f w).
Proof.
  intros Hf [Hw Hne]. split.
  - clear Hne. induction w as [| c w IH]; [done |].
    cbn in *. apply andb_true_iff in Hw as [Hc Hw].
    rewrite (Hf c Hc). by apply IH.
  - by destruct w.
Qed.

Lemma alnum_word_lower (w : string) : alnum_word w -> alnum_word (lower w).
Proof. apply alnum_word_map. intros c Hc. by apply char_case_alnum. Qed.

Lemma alnum_word_upper (w : string) : alnum_word w -> alnum_word (upper w).
Proof. apply alnum_word_map. intros c Hc. by apply char_case_alnum. Qed.

Lemma alnum_word_capitalize (w : string) :
  alnum_word w -> alnum_word (capitalize w).
Proof.
  intros [Hw Hne]. destruct w as [| c w]; [done |]. split; [| done].
  cbn in *. apply andb_true_iff in Hw as [Hc Hw].
  rewrite (proj2 (char_case_alnum c Hc)). cbn.
  clear Hne Hc. induction w as [| d w IH]; [done |].
  cbn in *. apply andb_true_iff in Hw as [Hd Hw].
  rewrite (proj1 (char_case_alnum d Hd)). by apply IH.
Qed.

Lemma alnum_word_plural (w s : string) :
  alnum_word w -> s = "s" \/ s = "S" -> alnum_word (w +:+ s).
Proof.
  intros [Hw Hne] Hs. split; [| by destruct w].
  rewrite list_ascii_of_string_app, forallb_app, Hw.
  by destruct Hs as [-> | ->].
Qed.

Lemma compile_alnum_word (w : string) :
  alnum_word w -> is_Some (re_compile w).
Proof. intros [Hw _]. rewrite (re_compile_alnum w Hw). by eexists. Qed.

Lemma rev_literals_head (cs : list ascii) :
  cs <> [] -> exists c t, rev (RChar <$> cs) = RChar c :: t.
Proof.
  intros Hne. destruct (exists_last Hne) as (l & a & ->).
  rewrite fmap_app, rev_app_distr. cbn. by eexists _, _.
Qed.

Lemma compile_alnum_word_mark (w mark : string) :
  alnum_word w -> mark ∈ punctuation_marks ->
  is_Some (re_compile (w +:+ mark)).
Proof.
  intros [Hw Hne] Hmark. unfold re_compile. cbn zeta.
  rewrite list_ascii_of_string_app, length_app.
  set (cs := list_ascii_of_string w) in *.
  destruct (rev_literals_head cs) as (c & t & Hrev).
  { subst cs. by destruct w. }
  replace (S (length cs + length (list_ascii_of_string mark)))
    with (length cs + S (length (list_ascii_of_string mark)))%nat by lia.
  rewrite (parse_alnum cs Hw), Hrev.
  unfold punctuation_marks in Hmark. rewrite !elem_of_cons in Hmark.
  destruct Hmark as [-> | [-> | [-> | [-> | [-> | [-> | [-> | Hnil]]]]]]];
    [| | | | | | | by apply elem_of_nil in Hnil].
  all: cbn; by eexists.
Qed.

Local Ltac alnum_case :=
  repeat first
    [ assumption
    | apply alnum_word_lower | apply alnum_word_upper
    | apply alnum_word_capitalize
    | apply alnum_word_plural; [| by (left + right)] ].

Lemma word_variants_compile (w v : string) :
  alnum_word w -> v ∈ word_variants w -> is_Some (re_compile v).
Proof.
  intros Hw Hv. unfold word_variants, punctuation_marks in Hv.
  cbn [flat_map app] in Hv.
  repeat (apply elem_of_cons in Hv as [-> | Hv]);
    [.. | by apply elem_of_nil in Hv].
  all: first
    [ solve [apply compile_alnum_word; alnum_case]
    | solve [apply compile_alnum_word_mark;
               [alnum_case | unfold punctuation_marks; pick_member]] ].
Qed.

(** X17.  When every word is a non-empty string of letters and digits, every
    entry of the privacy-mode list (the variations of the words and of the
    defaults, then the six patterns) compiles. *)
Theorem alnum_words_compile (words : list string) :
  Forall alnum_word words ->
  is_Some (mapM re_compile
             ((generate_word_variations words).2 ++ sensitive_patterns)).
Proof.
  intros Hwords. apply mapM_is_Some, Forall_app. split.
  - unfold generate_word_variations. cbn [snd].
    apply Forall_forall. intros v Hv.
    apply list_elem_of_In, in_flat_map in Hv as (w & Hw & Hv).
    apply (word_variants_compile w); [| by apply list_elem_of_In].
    apply list_elem_of_In, elem_of_app in Hw as [Hw | Hw].
    + by eapply Forall_forall in Hwords.
    + repeat (apply elem_of_cons in Hw as [-> | Hw]);
        [.. | by apply elem_of_nil in Hw]; by split.
  - unfold sensitive_patterns, phone_number_patterns, ssn_patterns,
      ip_address_patterns. cbn [app].
    repeat (apply Forall_cons; split; [vm_compute; by eexists |]).
    apply Forall_nil_2.
Qed.

Lemma privacy_mode_boxes_prefixed_tokens_witness :
  (well_formed (one_token "applesauce" 96 (1, 0, 1, 1))
   /\ is_Some (mapM compile_arg [PStr "apple"])
   /\ forallb is_alnum_char (list_ascii_of_string "apple") = true
   /\ ("apple" +:+ "sauce", 96, (1, 0, 1, 1))
        ∈ ocr_tokens (one_token "applesauce" 96 (1, 0, 1, 1)))
  /\ (1, 0, 1, 1)
       ∈ @perform_ocr_privacy_mode (reading "applesauce" 96) secret_frame
           [PStr "apple"].
Proof.
  assert (Hwf : well_formed (one_token "applesauce" 96 (1, 0, 1, 1))).
  { repeat split. }
  assert (Htok : ("apple" +:+ "sauce", 96, (1, 0, 1, 1))
                   ∈ ocr_tokens (one_token "applesauce" 96 (1, 0, 1, 1))).
  { apply list_elem_of_here. }
  destruct (mapM compile_arg [PStr "apple"]) as [compiled |] eqn:Hm;
    [| vm_compute in Hm; discriminate Hm].
  split.
  - split; [exact Hwf |]. split; [by eexists |]. split; [reflexivity | exact Htok].
  - refine (@privacy_mode_boxes_prefixed_tokens (reading "applesauce" 96)
              secret_frame secret_frame
              (one_token "applesauce" 96 (1, 0, 1, 1))
              [PStr "apple"] compiled "apple" "sauce" 96 (1, 0, 1, 1)
              eq_refl eq_refl Hwf Hm _ eq_refl Htok _).
    + apply list_elem_of_here.
    + reflexivity.
Defined.

Lemma strict_ipv4_pattern_subsumed_witness :
  str_match "\b(?:\d{1,3}\.){3}\d{1,3}(?![\d.])\b" "192.168.1.1" = true
  /\ str_match "\b(?:\d{1,3}\.){3}\d{1,3}\b" "192.168.1.1" = true.
Proof.
  assert (H2 : str_match "\b(?:\d{1,3}\.){3}\d{1,3}(?![\d.])\b" "192.168.1.1"
               = true) by (vm_compute; reflexivity).
  split; [exact H2 |].
  exact (strict_ipv4_pattern_subsumed "192.168.1.1" H2).
Defined.

Lemma alnum_words_compile_witness :
  Forall alnum_word ["secret"; "Token42"]
  /\ is_Some (mapM re_compile
                ((generate_word_variations ["secret"; "Token42"]).2
                 ++ sensitive_patterns)).
Proof.
  assert (Hwords : Forall alnum_word ["secret"; "Token42"]).
  { repeat (apply Forall_cons; split; [split; [reflexivity | discriminate] |]).
    apply Forall_nil_2. }
  split; [exact Hwords |].
  exact (alnum_words_compile _ Hwords).
Defined.
(** ** More on the word variations and the detection list *)

Lemma string_app_nil_r (s : string) : s +:+ "" = s.
Proof.
  induction s as [| c s IH]; [done |].
  change (String c s +:+ "") with (String c (s +:+ "")). by rewrite IH.
Qed.

Lemma string_app_assoc (a b c : string) : (a +:+ b) +:+ c = a +:+ (b +:+ c).
Proof.
  induction a as [| x a IH]; [done |].
  change (String x ((a +:+ b) +:+ c) = String x (a +:+ (b +:+ c))).
  by rewrite IH.
Qed.

Lemma word_variants_sound (w v : string) :
  v ∈ word_variants w ->
  exists form suffix,
    v = form +:+ suffix
    /\ ((form = lower w \/ form = capitalize w) /\ suffix ∈ suffixes "s"
        \/ form = upper w /\ suffix ∈ suffixes "S").
Proof.
  intros Hv. unfold word_variants, punctuation_marks in Hv.
  cbn [flat_map app] in Hv.
  repeat (apply elem_of_cons in Hv as [-> | Hv]);
    [.. | by apply elem_of_nil in Hv].
  all: rewrite ?string_app_assoc.
  all: first
    [ exists (lower w), ""; split; [by rewrite string_app_nil_r |];
      left; split; [by left | vm_compute; pick_member]
    | exists (upper w), ""; split; [by rewrite string_app_nil_r |];
      right; split; [done | vm_compute; pick_member]
    | exists (capitalize w), ""; split; [by rewrite string_app_nil_r |];
      left; split; [by right | vm_compute; pick_member]
    | eexists (lower w), _; split; [reflexivity |];
      left; split; [by left | vm_compute; pick_member]
    | eexists (upper w), _; split; [reflexivity |];
      right; split; [done | vm_compute; pick_member]
    | eexists (capitalize w), _; split; [reflexivity |];
      left; split; [by right | vm_compute; pick_member] ].
Qed.

(** X18.  Every generated variation is the lower-case, capitalised or
    upper-case form of a word of the list or of a default, followed by one
    of sixteen suffixes: nothing, a punctuation mark, the plural letter, or
    the plural letter and a mark. *)
Theorem word_variations_sound (words : list string) (v : string) :
  v ∈ (generate_word_variations words).2 ->
  exists w form suffix,
    w ∈ words ++ default_redacted_words
    /\ v = form +:+ suffix
    /\ ((form = lower w \/ form = capitalize w) /\ suffix ∈ suffixes "s"
        \/ form = upper w /\ suffix ∈ suffixes "S").
Proof.
  unfold generate_word_variations. cbn [snd].
  rewrite list_elem_of_In, in_flat_map. intros (w & Hw & Hv).
  apply list_elem_of_In, word_variants_sound in Hv
    as (form & suffix & Hv & Hform).
  exists w, form, suffix. split; [by apply list_elem_of_In | done].
Qed.

Lemma variations_length (words : list string) :
  length (flat_map word_variants words) = (48 * length words)%nat.
Proof.
  rewrite (flat_map_constant_length (c := 48%nat)); [lia |].
  intros w _. apply word_variants_length.
Qed.

(** X19.  The detection list built by the script has 48 entries for each
    typed word and each of the three defaults, plus the six patterns in
    privacy mode.  On an empty answer the default list itself is extended,
    so each default is processed twice and the list starts with the 144
    default variations twice over. *)
Theorem main_detection_list_size (words_input privacy_answer : string) :
  length (main_words_to_detect words_input privacy_answer).1
  = (48 * (match words_input with
           | EmptyString => 3
           | _ => length (split words_input)
           end + 3)
     + (if (main_words_to_detect words_input privacy_answer).2
        then 6 else 0))%nat
  /\ take 288 (main_words_to_detect "" privacy_answer).1
     = flat_map word_variants default_redacted_words
       ++ flat_map word_variants default_redacted_words.
Proof.
  split.
  - unfold main_words_to_detect, generate_word_variations. cbn [fst snd].
    set (words := match words_input with
                  | EmptyString => default_redacted_words
                  | _ => split words_input
                  end).
    assert (Hlen : length words
                   = match words_input with
                     | EmptyString => 3%nat
                     | _ => length (split words_input)
                     end) by (subst words; by destruct words_input).
    rewrite <- Hlen.
    assert (Hvars : length (flat_map word_variants
                              (words ++ ["apple"; "banana"; "password"]))
                    = (48 * (length words + 3))%nat).
    { rewrite variations_length, length_app. cbn [length]. lia. }
    destruct (bool_decide (lower privacy_answer = "yes")).
    + cbn [generate_patterns]. rewrite !length_app, Hvars.
      cbn [length phone_number_patterns ssn_patterns ip_address_patterns].
      lia.
    + rewrite Hvars. lia.
  - unfold main_words_to_detect.
    destruct (bool_decide (lower privacy_answer = "yes"));
      vm_compute; reflexivity.
Qed.

Lemma word_variations_sound_witness :
  "FOOS!" ∈ (generate_word_variations ["Foo"]).2
  /\ exists w form suffix,
       w ∈ ["Foo"] ++ default_redacted_words
       /\ "FOOS!" = form +:+ suffix
       /\ ((form = lower w \/ form = capitalize w) /\ suffix ∈ suffixes "s"
           \/ form = upper w /\ suffix ∈ suffixes "S").
Proof.
  assert (Hin : "FOOS!" ∈ (generate_word_variations ["Foo"]).2).
  { vm_compute. pick_member. }
  split; [exact Hin |].
  exact (word_variations_sound ["Foo"] "FOOS!" Hin).
Defined.
(** ** More on the capture loop *)

Section LoopMore.
Context `{Collaborators}.
Variables (words_to_detect : list string) (privacy_mode : bool).

(** A frame is shown only if the renderer returned; the loop ends after
    it when a quit key is read. *)
Lemma capture_iteration_returned (st st' : loop_state) (env : iteration)
    (frame : image) (quit : bool) :
  capture_iteration words_to_detect privacy_mode st env = Shown frame st' quit ->
  (quit_key (key env) = true -> quit = true)
  /\ (ocr_due st env = true ->
      redact_words (grabbed env)
        (detect words_to_detect privacy_mode (cvtColor (grabbed env))) 1
      = (frame, Returns)).
Proof.
  unfold capture_iteration, show_and_poll. cbn zeta.
  destruct (raises_early env); [done |]. destruct (ocr_due st env).
  - destruct (redact_words _ _ _) as [frame' []]; [| done].
    destruct (raising env) as [[] |]; try done; intros [= <- _ <-]; done.
  - destruct (raising env) as [[] |]; try done; intros [= _ _ <-]; done.
Qed.

Lemma capture_loop_quit (envs : list iteration) :
  forall (st : loop_state) (q : nat),
    first_quit envs = Some q ->
    (length (capture_loop words_to_detect privacy_mode st envs) <= S q)%nat.
Proof.
  induction envs as [| env rest IH]; intros st q Hq; [done |].
  cbn [capture_loop first_quit] in *.
  destruct (capture_iteration words_to_detect privacy_mode st env)
    as [frame st' quit |] eqn:Hstep; [| cbn; lia].
  apply capture_iteration_returned in Hstep as [Hquit _].
  destruct (quit_key (key env)).
  - rewrite (Hquit eq_refl). cbn. lia.
  - destruct (first_quit rest) as [q' |]; [| done].
    injection Hq as <-. cbn [length].
    destruct quit; [cbn; lia |]. specialize (IH st' q' eq_refl). lia.
Qed.

Lemma capture_loop_runs_on (envs : list iteration) :
  forall st : loop_state,
    (forall env, env ∈ envs -> raising env = None) ->
    (forall env, env ∈ envs -> quit_key (key env) = false) ->
    (forall env, env ∈ envs ->
       forallb (box_fits 1)
         (detect words_to_detect privacy_mode (cvtColor (grabbed env))) = true) ->
    length (capture_loop words_to_detect privacy_mode st envs) = length envs.
Proof.
  induction envs as [| env rest IH]; intros st Hcalls Hkeys Hfit; [done |].
  cbn [capture_loop]. unfold capture_iteration, raises_early, show_and_poll.
  cbn zeta. rewrite (Hcalls env) by by left.
  rewrite (Hkeys env) by by left.
  assert (Hrest : forall st', length (capture_loop words_to_detect privacy_mode
                                        st' rest) = length rest).
  { intros st'.
    apply IH; intros env' Henv'; [apply Hcalls | apply Hkeys | apply Hfit];
      by right. }
  destruct (ocr_due st env).
  - rewrite redact_words_redacted, (Hfit env) by by left.
    cbn [length]. by rewrite Hrest.
  - cbn [length]. by rewrite Hrest.
Qed.
End LoopMore.

(** X20.  No frame is shown after the iteration in which the q or ESC key
    is read: a run shows at most one frame per iteration up to and
    including that one. *)
Theorem nothing_shown_after_quit `{Collaborators}
    (words_to_detect : list string) (privacy_mode : bool) (start : Q)
    (envs : list iteration) (q : nat) :
  first_quit envs = Some q ->
  (length (capture_screen words_to_detect privacy_mode start envs) <= S q)%nat.
Proof. apply capture_loop_quit. Qed.

(** X21.  The loop does not stop by itself: as long as no library call
    raises (grabbing, grey conversion, display, key polling), no quit key
    is read and the detected boxes fit the renderer, every iteration shows
    a frame. *)
Theorem loop_runs_until_quit `{Collaborators}
    (words_to_detect : list string) (privacy_mode : bool) (start : Q)
    (envs : list iteration) :
  (forall env, env ∈ envs -> raising env = None) ->
  (forall env, env ∈ envs -> quit_key (key env) = false) ->
  (forall env, env ∈ envs ->
     forallb (box_fits 1)
       (detect words_to_detect privacy_mode (cvtColor (grabbed env))) = true) ->
  length (capture_screen words_to_detect privacy_mode start envs) = length envs.
Proof. apply capture_loop_runs_on. Qed.

(** X22.  Every frame shown has the shape of the frame grabbed in its
    iteration and differs from it at most inside the padded boxes detected
    on it. *)
Theorem shown_frame_differs_only_in_boxes `{Collaborators}
    (words_to_detect : list string) (privacy_mode : bool) (start : Q)
    (envs : list iteration) (k : nat) (env : iteration) (frame : image)
    (st' : loop_state) :
  envs !! k = Some env ->
  capture_screen words_to_detect privacy_mode start envs !! k
    = Some (frame, st') ->
  length frame = length (grabbed env)
  /\ (forall r, length <$> frame !! r = length <$> grabbed env !! r)
  /\ forall r c,
       covered (detect words_to_detect privacy_mode (cvtColor (grabbed env)))
               1 r c = false ->
       pixel_at frame r c = pixel_at (grabbed env) r c.
Proof.
  intros Henv Hk. unfold capture_screen in *.
  destruct (capture_loop_entry _ _ _ _ _ _ _ _ Henv Hk)
    as (st & quit & _ & Hit).
  pose proof (capture_iteration_shown _ _ _ _ _ _ _ Hit) as Hshown.
  apply capture_iteration_returned in Hit as [_ Hret]. cbn zeta in Hshown.
  destruct (ocr_due st env).
  - specialize (Hret eq_refl). rewrite redact_words_redacted in Hret.
    injection Hret as <- Hfit.
    destruct (forallb _ _) eqn:Hall; [| done].
    rewrite (fitting_prefix_all _ _ Hall).
    split; [apply redacted_shape |]. split; [apply redacted_shape |].
    intros r c Hout. rewrite pixel_at_redacted, Hout.
    by destruct (pixel_at (grabbed env) r c).
  - destruct Hshown as [-> _]. done.
Qed.

(** X23.  In exact mode, in an iteration that runs a detection and shows a
    frame, every pixel in the padded box of a token whose lower-cased text
    is in the word list and whose confidence is positive holds the fill
    colour in the frame shown. *)
Theorem detected_word_is_painted `{Collaborators}
    (words_to_detect : list string) (start : Q) (envs : list iteration)
    (k : nat) (env : iteration) (frame : image) (st st' : loop_state)
    (thresholded : image) (data : ocr_data) (text : string) (conf : Z)
    (b : box) (r c : nat) (px : pixel) :
  envs !! k = Some env ->
  capture_screen words_to_detect false start envs !! k = Some (frame, st') ->
  state_before (LoopState start None)
    (capture_screen words_to_detect false start envs) k = Some st ->
  ocr_due st env = true ->
  threshold (cvtColor (grabbed env)) = Some thresholded ->
  image_to_data thresholded = Some data ->
  well_formed data ->
  (text, conf, b) ∈ ocr_tokens data ->
  lower text ∈ words_to_detect ->
  0 < conf ->
  covered [b] 1 r c = true ->
  pixel_at (grabbed env) r c = Some px ->
  pixel_at frame r c = Some (paint [255; 255; 255] px).
Proof.
  intros Henv Hk Hst Hdue Hthr Hdata Hwf Htok Hword Hconf Hcov Hpx.
  unfold capture_screen in *.
  destruct (capture_loop_entry _ _ _ _ _ _ _ _ Henv Hk)
    as (st0 & quit & Hst0 & Hit).
  rewrite Hst in Hst0. injection Hst0 as <-.
  apply capture_iteration_returned in Hit as [_ Hret].
  specialize (Hret Hdue). rewrite redact_words_redacted in Hret.
  injection Hret as <- Hfit.
  destruct (forallb _ _) eqn:Hall; [| done].
  rewrite (fitting_prefix_all _ _ Hall), pixel_at_redacted, Hpx.
  assert (Hb : b ∈ detect words_to_detect false (cvtColor (grabbed env))).
  { unfold detect, perform_ocr. rewrite Hthr, Hdata.
    rewrite (scan_tokens_spec _ data Hwf (data_text data) O []) by done.
    cbn [from_option app id]. rewrite drop_0.
    apply elem_of_detection_boxes. exists text, conf.
    split; [done |]. split; [by apply bool_decide_eq_true | done]. }
  assert (Hcovered : covered (detect words_to_detect false
                                (cvtColor (grabbed env))) 1 r c = true).
  { unfold covered in *. cbn [existsb] in Hcov. rewrite orb_false_r in Hcov.
    apply existsb_exists. exists b. split; [by apply list_elem_of_In | done]. }
  unfold detect in Hcovered. rewrite Hcovered. done.
Qed.

(** ** [list_displays] *)

Lemma enum_loop_spec {monitor : Type} (all : list monitor) :
  forall fuel i monitors,
    (length all - i < fuel)%nat ->
    enum_loop fuel all i monitors = Some (monitors ++ drop i all).
Proof.
  induction fuel as [| fuel IH]; intros i monitors Hfuel; [lia |].
  cbn [enum_loop]. destruct (all !! i) as [m |] eqn:Hm.
  - rewrite IH by (apply lookup_lt_Some in Hm; lia).
    rewrite (drop_S _ _ _ Hm). by rewrite <- app_assoc.
  - rewrite drop_ge by by apply lookup_ge_None. by rewrite app_nil_r.
Qed.

(** X24.  [list_displays] answers a list exactly when the platform is
    Darwin, Linux or Windows and the platform's enumeration succeeded and
    is not empty; the list is then that enumeration, in its order.  It
    never answers an empty list. *)
Theorem list_displays_result {monitor : Type} (sys_platform : string)
    (screeninfo win32 : option (list monitor)) (monitors : list monitor) :
  list_displays sys_platform screeninfo win32 = Some monitors
  <-> monitors <> []
      /\ ((sys_platform = "Darwin" \/ sys_platform = "Linux")
          /\ screeninfo = Some monitors
          \/ sys_platform = "Windows" /\ win32 = Some monitors).
Proof.
  unfold list_displays.
  destruct (bool_decide (sys_platform = "Darwin")) eqn:Hd;
    [apply bool_decide_eq_true in Hd | apply bool_decide_eq_false in Hd].
  - subst. cbn. destruct screeninfo as [[| m ms] |]; split;
      try done; try (intros [Hne [[_ [= <-]] | [[=] _]]]; done).
    intros [= <-]. split; [done |]. left. by split; [left |].
  - destruct (bool_decide (sys_platform = "Linux")) eqn:Hl;
      [apply bool_decide_eq_true in Hl | apply bool_decide_eq_false in Hl].
    + subst. cbn. destruct screeninfo as [[| m ms] |]; split;
        try done; try (intros [Hne [[_ [= <-]] | [[=] _]]]; done).
      intros [= <-]. split; [done |]. left. by split; [right |].
    + cbn [orb].
      destruct (bool_decide (sys_platform = "Windows")) eqn:Hw;
        [apply bool_decide_eq_true in Hw | apply bool_decide_eq_false in Hw].
      * subst. destruct win32 as [all |].
        -- rewrite enum_loop_spec by lia. cbn [app]. rewrite drop_0.
           destruct all as [| m ms]; split;
             try done; try (intros [Hne [[[[=] | [=]] _] | [_ [= <-]]]]; done).
           intros [= <-]. split; [done |]. by right.
        -- split; [done |]. intros [_ [[[[=] | [=]] _] | [_ [=]]]].
      * split; [done |]. intros [_ [[[? | ?] _] | [? _]]]; done.
Qed.

Lemma nothing_shown_after_quit_witness :
  first_quit quit_frames = Some 1%nat
  /\ (length (@capture_screen (reading "password" 96)
                (main_words_to_detect "" "no").1 false 0 quit_frames)
      <= 2)%nat.
Proof.
  split; [reflexivity |].
  exact (@nothing_shown_after_quit (reading "password" 96)
           (main_words_to_detect "" "no").1 false 0 quit_frames 1 eq_refl).
Defined.

Lemma loop_runs_until_quit_witness :
  ((forall env, env ∈ three_frames -> raising env = None)
   /\ (forall env, env ∈ three_frames -> quit_key (key env) = false)
   /\ (forall env, env ∈ three_frames ->
         forallb (box_fits 1)
           (@detect (reading "password" 96) (main_words_to_detect "" "no").1
              false (@cvtColor (reading "password" 96) (grabbed env))) = true))
  /\ length (@capture_screen (reading "password" 96)
               (main_words_to_detect "" "no").1 false 0 three_frames)
     = 3%nat.
Proof.
  assert (Hcalls : forall env, env ∈ three_frames -> raising env = None).
  { intros env Henv. unfold three_frames in Henv.
    repeat (apply elem_of_cons in Henv as [-> | Henv]);
      [reflexivity | reflexivity | reflexivity |].
    by apply elem_of_nil in Henv. }
  assert (Hkeys : forall env, env ∈ three_frames -> quit_key (key env) = false).
  { intros env Henv. unfold three_frames in Henv.
    repeat (apply elem_of_cons in Henv as [-> | Henv]);
      [reflexivity | reflexivity | reflexivity |].
    by apply elem_of_nil in Henv. }
  assert (Hfit : forall env, env ∈ three_frames ->
            forallb (box_fits 1)
              (@detect (reading "password" 96) (main_words_to_detect "" "no").1
                 false (@cvtColor (reading "password" 96) (grabbed env)))
            = true).
  { intros env Henv. unfold three_frames in Henv.
    repeat (apply elem_of_cons in Henv as [-> | Henv]);
      [vm_compute; reflexivity | vm_compute; reflexivity
       | vm_compute; reflexivity |].
    by apply elem_of_nil in Henv. }
  split; [split; [exact Hcalls | split; [exact Hkeys | exact Hfit]] |].
  exact (@loop_runs_until_quit (reading "password" 96)
           (main_words_to_detect "" "no").1 false 0 three_frames
           Hcalls Hkeys Hfit).
Defined.

Lemma shown_frame_differs_only_in_boxes_witness :
  exists frame st',
    @capture_screen (reading_at wide_frame "Password" 96 (4, 2, 3, 1))
      (main_words_to_detect "" "no").1 false 0 one_frame !! 0%nat
    = Some (frame, st')
    /\ length frame = 6%nat
    /\ pixel_at frame 0 9 = Some [0; 0; 0; 255].
Proof.
  destruct (@capture_screen (reading_at wide_frame "Password" 96 (4, 2, 3, 1))
              (main_words_to_detect "" "no").1 false 0 one_frame !! 0%nat)
    as [[frame st'] |] eqn:Hk; [| vm_compute in Hk; discriminate Hk].
  exists frame, st'. split; [reflexivity |].
  destruct (@shown_frame_differs_only_in_boxes
              (reading_at wide_frame "Password" 96 (4, 2, 3, 1))
              (main_words_to_detect "" "no").1 false 0 one_frame 0
              (Iteration wide_frame 1 1 no_key None) frame st' eq_refl Hk)
    as (Hlen & _ & Hout).
  split; [exact Hlen |].
  rewrite (Hout 0%nat 9%nat); [reflexivity | vm_compute; reflexivity].
Defined.

Lemma detected_word_is_painted_witness :
  exists frame st',
    @capture_screen (reading_at wide_frame "Password" 96 (4, 2, 3, 1))
      (main_words_to_detect "" "no").1 false 0 one_frame !! 0%nat
    = Some (frame, st')
    /\ pixel_at frame 2 5 = Some [255; 255; 255; 0].
Proof.
  destruct (@capture_screen (reading_at wide_frame "Password" 96 (4, 2, 3, 1))
              (main_words_to_detect "" "no").1 false 0 one_frame !! 0%nat)
    as [[frame st'] |] eqn:Hk; [| vm_compute in Hk; discriminate Hk].
  exists frame, st'. split; [reflexivity |].
  refine (@detected_word_is_painted
            (reading_at wide_frame "Password" 96 (4, 2, 3, 1))
            (main_words_to_detect "" "no").1 0 one_frame 0
            (Iteration wide_frame 1 1 no_key None) frame (LoopState 0 None) st'
            wide_frame (one_token "Password" 96 (4, 2, 3, 1))
            "Password" 96 (4, 2, 3, 1) 2 5 [0; 0; 0; 255]
            eq_refl Hk eq_refl _ eq_refl _ _ _ _ _ _ _).
  - vm_compute. reflexivity.
  - vm_compute. reflexivity.
  - repeat split.
  - apply list_elem_of_here.
  - apply (bool_decide_unpack _). vm_compute. exact I.
  - reflexivity.
  - vm_compute. reflexivity.
  - vm_compute. reflexivity.
Defined.

(** C1.  The loop on [secret_returns], exact mode with the default words,
    the engine reading "password" off the lit strip.  The first frame is
    shown painted and its box is the loop's box list.  The third iteration
    runs no detection and paints nothing: the lit strip is shown as
    grabbed, although the box detected in the first cycle covers it
    (painting that box turns the strip white) and a detection on this very
    frame finds it. *)
Theorem raw_frame_shown_between_detections :
  @capture_screen (reading "password" 96)
    (main_words_to_detect "" "no").1 false 0 secret_returns
  = [(white_strip, LoopState 1 (Some [(1, 0, 1, 1)]));
     (blank_frame, LoopState 2 (Some []));
     (secret_frame, LoopState 2 (Some []))]
  /\ @detect (reading "password" 96) (main_words_to_detect "" "no").1 false
       (@cvtColor (reading "password" 96) secret_frame) = [(1, 0, 1, 1)]
  /\ @spec_tracked (reading "password" 96)
       (main_words_to_detect "" "no").1 false 0 [] secret_returns 2
     = [(1, 0, 1, 1)]
  /\ (redact_words secret_frame [(1, 0, 1, 1)] 1).1 = white_strip
  /\ white_strip <> secret_frame.
Proof.
  repeat split; try (vm_compute; reflexivity). discriminate.
Qed.
